(** * route-label: verification of [helper.js]

    A shallow embedding of the helpers that build the table of named
    routes: the path validator, the tokenizer, the hierarchy joiner, the
    [register] operation, the terminal-route predicate and the deep
    flattener, followed by the theorems that settle the specification's
    claims about them.

    JavaScript strings are modelled as [string], sequences of characters
    compared by their codes.  The route table is an ordinary object used
    as a dictionary from route names to route definitions, as the [{}]
    that callers pass: its own properties, the entries, are modelled as a
    finite map, each entry an object and hence truthy; a name that the
    table does not own is looked up along the prototype chain, in
    [Object.prototype]. *)

From Stdlib Require Import Strings.String Strings.Ascii NArith ZArith List Bool Lia.
From stdpp Require Import base option gmap strings list fin_maps.

Local Open Scope string_scope.
Local Open Scope list_scope.

(** ** Strings *)

Module Str.

(** [Array.prototype.join] on an array of strings. *)
Fixpoint join (sep : string) (l : list string) : string :=
  match l with
  | [] => ""
  | x :: rest =>
      match rest with
      | [] => x
      | _ :: _ => x +:+ sep +:+ join sep rest
      end
  end.

(** [String.prototype.split] with a one-character separator: the pieces
    between the occurrences of the separator, empty pieces included; a
    string without the separator (the empty string too) gives one
    piece. *)
Fixpoint split (sep : ascii) (s : string) : list string :=
  match s with
  | "" => [""]
  | String c s' =>
      if Ascii.eqb c sep then "" :: split sep s'
      else match split sep s' with
           | piece :: pieces => String c piece :: pieces
           | [] => [String c ""]
           end
  end.

(** [s.charAt(n)]: the one-character string at index [n], the empty
    string when [n] is out of range. *)
Definition charAt (n : nat) (s : string) : string :=
  match String.get n s with
  | Some c => String c ""
  | None => ""
  end.

(** [s.substring(n)]: the rest of [s] from index [n] on. *)
Definition substringFrom (n : nat) (s : string) : string :=
  String.substring n (String.length s - n) s.

End Str.

(** ** Regular expressions

    The two validators test their argument against a regular expression
    literal.  Both literals are anchored with [^] and [$] and carry no
    flag, so [s.match(re) !== null] asks whether the whole of [s] belongs
    to the language of the expression between the anchors. *)

Module Regex.

(** A character class is a list of inclusive ranges; a single character
    [c] is the range from [c] to [c]. *)
Definition class := list (ascii * ascii).

Inductive regex : Type :=
| Void : regex
| Eps : regex
| Chr : ascii -> regex
| Class : class -> regex
| Seq : regex -> regex -> regex
| Alt : regex -> regex -> regex
| Star : regex -> regex.

(** The postfix operators [?] and [+]. *)
Definition Opt (r : regex) : regex := Alt r Eps.
Definition Plus (r : regex) : regex := Seq r (Star r).

Definition in_range (c : ascii) (range : ascii * ascii) : bool :=
  (N_of_ascii (fst range) <=? N_of_ascii c)%N
  && (N_of_ascii c <=? N_of_ascii (snd range))%N.

Definition in_class (cls : class) (c : ascii) : bool :=
  existsb (in_range c) cls.

(** *** The language of an expression *)

Inductive matches : regex -> string -> Prop :=
| m_eps : matches Eps ""
| m_chr c : matches (Chr c) (String c "")
| m_class cls c : in_class cls c = true -> matches (Class cls) (String c "")
| m_seq r1 r2 s1 s2 :
    matches r1 s1 -> matches r2 s2 -> matches (Seq r1 r2) (s1 +:+ s2)
| m_alt_l r1 r2 s : matches r1 s -> matches (Alt r1 r2) s
| m_alt_r r1 r2 s : matches r2 s -> matches (Alt r1 r2) s
| m_star_nil r : matches (Star r) ""
| m_star_app r s1 s2 :
    matches r s1 -> matches (Star r) s2 -> matches (Star r) (s1 +:+ s2).

(** *** The matcher: derivatives *)

Fixpoint nullable (r : regex) : bool :=
  match r with
  | Void => false
  | Eps => true
  | Chr _ => false
  | Class _ => false
  | Seq r1 r2 => nullable r1 && nullable r2
  | Alt r1 r2 => nullable r1 || nullable r2
  | Star _ => true
  end.

Fixpoint deriv (c : ascii) (r : regex) : regex :=
  match r with
  | Void => Void
  | Eps => Void
  | Chr c' => if Ascii.eqb c c' then Eps else Void
  | Class cls => if in_class cls c then Eps else Void
  | Seq r1 r2 =>
      if nullable r1 then Alt (Seq (deriv c r1) r2) (deriv c r2)
      else Seq (deriv c r1) r2
  | Alt r1 r2 => Alt (deriv c r1) (deriv c r2)
  | Star r1 => Seq (deriv c r1) (Star r1)
  end.

(** [test r s]: does the whole of [s] match [r]? *)
Fixpoint test (r : regex) (s : string) : bool :=
  match s with
  | "" => nullable r
  | String c s' => test (deriv c r) s'
  end.

End Regex.

(** ** JavaScript values *)

#[warnings="-register-all"] Inductive JSValue : Type :=
| JSUndefined : JSValue
| JSNull : JSValue
| JSBoolean : bool -> JSValue
| JSNumber : Z -> JSValue
| JSString : string -> JSValue
| JSArray : list JSValue -> JSValue
| JSObject : nat -> JSValue.

(** Induction over values that reaches the elements of an array. *)
Section JSValueInduction.

Variable P : JSValue -> Prop.
Hypothesis H_undefined : P JSUndefined.
Hypothesis H_null : P JSNull.
Hypothesis H_boolean : forall b, P (JSBoolean b).
Hypothesis H_number : forall n, P (JSNumber n).
Hypothesis H_string : forall s, P (JSString s).
Hypothesis H_array : forall items, Forall P items -> P (JSArray items).
Hypothesis H_object : forall o, P (JSObject o).

Fixpoint JSValue_nested_ind (v : JSValue) : P v :=
  match v with
  | JSUndefined => H_undefined
  | JSNull => H_null
  | JSBoolean b => H_boolean b
  | JSNumber n => H_number n
  | JSString s => H_string s
  | JSArray items =>
      H_array items
        ((fix each (l : list JSValue) : Forall P l :=
            match l with
            | [] => @List.Forall_nil _ P
            | x :: rest => @List.Forall_cons _ P x rest (JSValue_nested_ind x) (each rest)
            end) items)
  | JSObject o => H_object o
  end.

End JSValueInduction.

(** The [typeof] operator. *)
Definition typeof (v : JSValue) : string :=
  match v with
  | JSUndefined => "undefined"
  | JSNull => "object"
  | JSBoolean _ => "boolean"
  | JSNumber _ => "number"
  | JSString _ => "string"
  | JSArray _ => "object"
  | JSObject _ => "object"
  end.

(** [Array.isArray]. *)
Definition isArray (v : JSValue) : bool :=
  match v with
  | JSArray _ => true
  | _ => false
  end.

(** ** Validation *)

(** The class [[-_.a-zA-Z0-9]]. *)
Definition tokenClass : Regex.class :=
  [("-", "-"); ("_", "_"); (".", "."); ("a", "z"); ("A", "Z"); ("0", "9")]%char.

(** The expression [(\/:?[-_.a-zA-Z0-9]+)+] of [isValidPathForNamedRoute]. *)
Definition pathGroup : Regex.regex :=
  Regex.Seq (Regex.Chr "/")
    (Regex.Seq (Regex.Opt (Regex.Chr ":")) (Regex.Plus (Regex.Class tokenClass))).

Definition pathRegex : Regex.regex := Regex.Plus pathGroup.

Definition isValidPathForNamedRoute (path : JSValue) : bool :=
  if negb (typeof path =? "string") then false
  else
    match path with
    | JSString s =>
        if s =? "/" then true
        else Regex.test pathRegex s
    | _ => false
    end.

(** The expression [[-_.a-zA-Z0-9]+] of [isValidName]. *)
Definition nameRegex : Regex.regex := Regex.Plus (Regex.Class tokenClass).

Definition isValidName (name : JSValue) : bool :=
  if negb (typeof name =? "string") then false
  else
    match name with
    | JSString s => Regex.test nameRegex s
    | _ => false
    end.

(** ** Tokenization *)

(** A token; an absent [input] field is [false]. *)
Record Token : Type := mkToken { text : string; input : bool }.

Definition toToken (item : string) : Token :=
  if (0 <? String.length item)%nat && (Str.charAt 0 item =? ":")
  then {| text := Str.substringFrom 1 item; input := true |}
  else {| text := item; input := false |}.

Definition tokensToString (tokens : list Token) : string :=
  Str.join "/"
    (map (fun token =>
            let str := text token in
            if input token then ":" +:+ str else str)
         tokens).

(** ** Path hierarchy joining *)

Definition buildPath (pathHierarchy : list string) : string :=
  let slashIgnored :=
    fold_left
      (fun slashIgnored path =>
         if negb (path =? "/") then slashIgnored ++ [path] else slashIgnored)
      pathHierarchy [] in
  let cleanPathHierarchy :=
    if (length slashIgnored =? 0)%nat then ["/"] else slashIgnored in
  Str.join "" cleanPathHierarchy.

(** ** Registration *)

Record RouteDefinition : Type :=
  mkRoute { pattern : string; tokens : list Token }.

Abbreviation RouteTable := (gmap string RouteDefinition).

(** The names of the properties of [Object.prototype], which every
    ordinary object inherits.  Each of them is a function, or for
    [__proto__] the prototype object itself: a truthy value that has no
    [pattern] field. *)
Definition objectPrototypeNames : list string :=
  ["constructor"; "hasOwnProperty"; "isPrototypeOf"; "propertyIsEnumerable";
   "toLocaleString"; "toString"; "valueOf"; "__proto__";
   "__defineGetter__"; "__defineSetter__"; "__lookupGetter__";
   "__lookupSetter__"].

Definition inherits (name : string) : bool :=
  existsb (String.eqb name) objectPrototypeNames.

(** The value of [routeTable[name]]: the entry that the table owns under
    the name; failing that, the property of that name inherited from
    [Object.prototype]; failing that, [undefined]. *)
Inductive Property : Type :=
| OwnEntry (def : RouteDefinition)
| Inherited
| Undefined.

Definition property (rt : RouteTable) (name : string) : Property :=
  match rt !! name with
  | Some def => OwnEntry def
  | None => if inherits name then Inherited else Undefined
  end.

(** The two errors [register] throws, told apart by their message. *)
Inductive RegisterError : Type :=
| DuplicateRouteName (name : string)
| MalformedPattern (pattern : string).

Definition message (e : RegisterError) : string :=
  match e with
  | DuplicateRouteName name => "There are duplicates in route name: " +:+ name
  | MalformedPattern pattern =>
      "Generated pattern is malformed, check the routing implementation: "
      +:+ pattern
  end.

(** Computations that read and write the route table and may throw: the
    table is threaded through, and a throw keeps the table as it was at
    the point of the throw. *)
Module Eff.

Inductive outcome (A : Type) : Type :=
| Returned (a : A)
| Threw (e : RegisterError).
Arguments Returned {A} a.
Arguments Threw {A} e.

Definition eff (A : Type) : Type := RouteTable -> outcome A * RouteTable.

Definition ret {A} (a : A) : eff A := fun rt => (Returned a, rt).

Definition bind {A B} (m : eff A) (k : A -> eff B) : eff B :=
  fun rt =>
    match m rt with
    | (Returned a, rt') => k a rt'
    | (Threw e, rt') => (Threw e, rt')
    end.

Definition throw {A} (e : RegisterError) : eff A := fun rt => (Threw e, rt).

(** [routeTable[name]], a lookup along the prototype chain. *)
Definition read (name : string) : eff Property :=
  fun rt => (Returned (property rt name), rt).

(** [routeTable[name] = def], reached only when the name is owned or is
    not inherited, where it sets the own property. *)
Definition write (name : string) (def : RouteDefinition) : eff unit :=
  fun rt => (Returned tt, <[name := def]> rt).

(** [if (cond) { throw e; }] *)
Definition throwIf (cond : bool) (e : RegisterError) : eff unit :=
  if cond then throw e else ret tt.

End Eff.

Notation "'let*' x ':=' m 'in' k" := (Eff.bind m (fun x => k))
  (at level 10, x name, m at level 100, k at level 200).

(** [routeTable[name] && (pattern !== routeTable[name].pattern)]: an entry
    is an object, hence truthy, and its pattern is compared; an inherited
    property is truthy and its [pattern] is [undefined], which differs
    from every string; [undefined] is falsy. *)
Definition conflicts (entry : Property) (newPattern : string) : bool :=
  match entry with
  | OwnEntry def => negb (newPattern =? pattern def)
  | Inherited => true
  | Undefined => false
  end.

Definition register (nameHierarchy pathHierarchy : list string) : Eff.eff unit :=
  let name := Str.join "." nameHierarchy in
  let pattern := buildPath pathHierarchy in
  let* entry := Eff.read name in
  let* _ := Eff.throwIf (conflicts entry pattern) (DuplicateRouteName name) in
  let* _ := Eff.throwIf (negb (isValidPathForNamedRoute (JSString pattern)))
              (MalformedPattern pattern) in
  Eff.write name
    {| pattern := pattern; tokens := map toToken (Str.split "/" pattern) |}.

(** ** Terminal routes *)

Section TerminalRoute.

(** The values of [event.operation], and the two constants [PUSH] and
    [POP] of the module [constants], compared with [===]. *)
Context {Operation : Type} `{EqDecision Operation}.
Variables (PUSH POP : Operation).

Record Event : Type := mkEvent { operation : Operation; name : string }.

(** [previousEvent] is [undefined] ([None]) or an event. *)
Definition isTerminalRoute (previousEvent : option Event) (event : Event) : bool :=
  match previousEvent with
  | None => false
  | Some previousEvent =>
      if bool_decide (operation previousEvent = PUSH)
         && bool_decide (operation event = POP)
      then name previousEvent =? name event
      else false
  end.

End TerminalRoute.

(** ** Deep flattening *)

(** [flattenArray arr] is [flattenDeep] applied to the array [arr]; the
    two [forEach] loops that push onto [ret] are the two folds. *)
Fixpoint flattenArray (arr : JSValue) : list JSValue :=
  match arr with
  | JSArray nestedArrays =>
      fold_left
        (fun ret item =>
           if negb (isArray item) then ret ++ [item]
           else
             let temp := flattenArray item in
             fold_left (fun ret x => ret ++ [x]) temp ret)
        nestedArrays []
  | _ => []
  end.

Definition flattenDeep (nestedArrays : list JSValue) : list JSValue :=
  flattenArray (JSArray nestedArrays).

(** ** The specification's readings

    Definitions that follow the words of the specification, to be compared
    with the definitions above, which follow the code. *)

Module Spec.

(** "Drop every fragment equal to ["/"]; concatenate the remaining
    fragments in order via plain string concatenation; if after dropping,
    nothing remains, return ["/"]." *)
Definition joinFragments (fragments : list string) : string :=
  match List.filter (fun fragment => negb (fragment =? "/")) fragments with
  | [] => "/"
  | remaining => fold_right String.append "" remaining
  end.

(** The leaves of a value, depth-first and left to right: a value that
    is not a sequence is its own single leaf. *)
Fixpoint leaves (v : JSValue) : list JSValue :=
  match v with
  | JSArray items => flat_map leaves items
  | _ => [v]
  end.

(** "An alphanumeric/dash/underscore/dot token." *)
Definition tokenChar (c : ascii) : Prop :=
  c = "-"%char \/ c = "_"%char \/ c = "."%char \/
  (N_of_ascii "a" <= N_of_ascii c <= N_of_ascii "z")%N \/
  (N_of_ascii "A" <= N_of_ascii c <= N_of_ascii "Z")%N \/
  (N_of_ascii "0" <= N_of_ascii c <= N_of_ascii "9")%N.

Inductive token : string -> Prop :=
| token_one c : tokenChar c -> token (String c "")
| token_more c s : tokenChar c -> token s -> token (String c s).

(** "[/] followed by an optional [:] and a token." *)
Definition group (g : string) : Prop :=
  exists t, token t /\ (g = "/" +:+ t \/ g = "/:" +:+ t).

(** "One or more groups." *)
Definition groups (s : string) : Prop :=
  exists gs, gs <> [] /\ Forall group gs /\ s = fold_right String.append "" gs.

End Spec.

(** ** Tables built by registration

    The tables a caller can reach: the empty table, and the table left by
    any call of [register] on a table already reached, whether the call
    returned or threw. *)

Inductive built : RouteTable -> Prop :=
| built_empty : built ∅
| built_register rt nameHierarchy pathHierarchy :
    built rt -> built (snd (register nameHierarchy pathHierarchy rt)).

(** The characters of a string, and whether a character occurs in it. *)
Fixpoint occurs (c : ascii) (s : string) : bool :=
  match s with
  | "" => false
  | String c' s' => Ascii.eqb c' c || occurs c s'
  end.

(** The token of the empty segment that stands for the leading slash. *)
Definition rootToken : Token := {| text := ""; input := false |}.

(** A segment of a valid path: a token, or a colon and a token. *)
Definition segment (seg : string) : Prop :=
  exists t, Spec.token t /\ (seg = t \/ seg = ":" +:+ t).

(** What [tokensToString] makes of one token. *)
Definition render (token : Token) : string :=
  if input token then ":" +:+ text token else text token.

(** * Properties *)

(** ** Strings *)

Module StrFacts.

Lemma app_nil_l (s : string) : "" +:+ s = s.
Proof. reflexivity. Qed.

Lemma app_cons (c : ascii) (s t : string) :
  String c s +:+ t = String c (s +:+ t).
Proof. reflexivity. Qed.

Lemma app_nil_r (s : string) : s +:+ "" = s.
Proof. induction s as [|c s IH]; [reflexivity|]. now rewrite app_cons, IH. Qed.

Lemma app_assoc (s t u : string) : (s +:+ t) +:+ u = s +:+ (t +:+ u).
Proof.
  induction s as [|c s IH]; [reflexivity|].
  now rewrite !app_cons, IH.
Qed.

Lemma app_eq_nil (s t : string) : s +:+ t = "" -> s = "" /\ t = "".
Proof.
  destruct s; [rewrite app_nil_l; auto | rewrite app_cons; discriminate].
Qed.

(** A split of [String c s] either starts with an empty piece or peels
    [c] off its first piece. *)
Lemma app_eq_cons (s1 s2 : string) (c : ascii) (s : string) :
  s1 +:+ s2 = String c s ->
  (s1 = "" /\ s2 = String c s) \/
  (exists s1', s1 = String c s1' /\ s = s1' +:+ s2).
Proof.
  destruct s1 as [|c1 s1]; [left; auto|].
  rewrite app_cons. intros [= -> <-]. right; eauto.
Qed.

Lemma substring_all (s : string) : String.substring 0 (String.length s) s = s.
Proof. induction s as [|c s IH]; [reflexivity|]. simpl. now rewrite IH. Qed.

Lemma substringFrom_1 (c : ascii) (s : string) :
  Str.substringFrom 1 (String c s) = s.
Proof.
  unfold Str.substringFrom. simpl. rewrite Nat.sub_0_r. apply substring_all.
Qed.

(** Joining with the empty separator is plain concatenation. *)
Lemma join_empty_sep (l : list string) :
  Str.join "" l = fold_right String.append "" l.
Proof.
  induction l as [|x [|y l] IH]; [reflexivity | |].
  - simpl. now rewrite app_nil_r.
  - change (Str.join "" (x :: y :: l)) with (x +:+ "" +:+ Str.join "" (y :: l)).
    now rewrite IH, app_nil_l.
Qed.

Lemma split_not_nil (sep : ascii) (s : string) : Str.split sep s <> [].
Proof.
  induction s as [|c s IH]; simpl; [discriminate|].
  destruct (Ascii.eqb c sep); [discriminate|].
  destruct (Str.split sep s); [contradiction | discriminate].
Qed.

(** Joining the pieces of a split with the separator gives the string
    back. *)
Lemma join_split (sep : ascii) (s : string) :
  Str.join (String sep "") (Str.split sep s) = s.
Proof.
  induction s as [|c s IH]; [reflexivity|].
  simpl Str.split. destruct (Ascii.eqb_spec c sep) as [->|Hne].
  - pose proof (split_not_nil sep s) as Hnil.
    destruct (Str.split sep s) as [|p ps] eqn:E; [contradiction|].
    change (Str.join (String sep "") ("" :: p :: ps))
      with ("" +:+ String sep "" +:+ Str.join (String sep "") (p :: ps)).
    now rewrite IH.
  - pose proof (split_not_nil sep s) as Hnil.
    destruct (Str.split sep s) as [|p ps] eqn:E; [contradiction|].
    destruct ps as [|q ps].
    + simpl in *. now rewrite IH.
    + change (Str.join (String sep "") (String c p :: q :: ps))
        with (String c (p +:+ String sep "" +:+ Str.join (String sep "") (q :: ps))).
      change (Str.join (String sep "") (p :: q :: ps))
        with (p +:+ String sep "" +:+ Str.join (String sep "") (q :: ps)) in IH.
      now rewrite IH.
Qed.

End StrFacts.

(** ** The matcher decides the language *)

Module RegexFacts.
Import Regex StrFacts.

Lemma nullable_matches (r : regex) : nullable r = true -> matches r "".
Proof.
  induction r as [| | | |r1 IH1 r2 IH2|r1 IH1 r2 IH2|r IH]; simpl;
    try discriminate.
  - intros _. constructor.
  - intros [H1 H2]%andb_true_iff.
    change "" with ("" +:+ ""). constructor; auto.
  - intros [H|H]%orb_true_iff; [apply m_alt_l | apply m_alt_r]; auto.
  - intros _. constructor.
Qed.

Lemma matches_nullable (r : regex) (s : string) :
  matches r s -> s = "" -> nullable r = true.
Proof.
  induction 1 as [| | |r1 r2 s1 s2 _ IH1 _ IH2|r1 r2 s _ IH|r1 r2 s _ IH| |];
    intros E; simpl; try discriminate; auto.
  - apply app_eq_nil in E as [-> ->]. now rewrite IH1, IH2.
  - now rewrite IH.
  - rewrite IH by assumption. apply orb_true_r.
Qed.

Lemma nullable_spec (r : regex) : nullable r = true <-> matches r "".
Proof.
  split; [apply nullable_matches | intros H; now apply (matches_nullable r "")].
Qed.

Lemma deriv_sound (c : ascii) (r : regex) :
  forall s, matches (deriv c r) s -> matches r (String c s).
Proof.
  induction r as [| |c'|cls|r1 IH1 r2 IH2|r1 IH1 r2 IH2|r IH]; simpl; intros s H.
  - inversion H.
  - inversion H.
  - destruct (Ascii.eqb_spec c c') as [->|]; inversion H; subst. constructor.
  - destruct (in_class cls c) eqn:E; inversion H; subst. now constructor.
  - assert (Hseq : forall w, matches (Seq (deriv c r1) r2) w ->
                             matches (Seq r1 r2) (String c w)).
    { intros w Hw. inversion Hw; subst.
      rewrite <- app_cons. constructor; auto. }
    destruct (nullable r1) eqn:E; [|auto].
    inversion H; subst; [auto|].
    rewrite <- (app_nil_l (String c s)). constructor; auto.
    now apply nullable_matches.
  - inversion H; subst; [apply m_alt_l | apply m_alt_r]; auto.
  - inversion H; subst. rewrite <- app_cons. constructor; auto.
Qed.

Lemma deriv_complete (c : ascii) (r : regex) (w : string) :
  matches r w -> forall s, w = String c s -> matches (deriv c r) s.
Proof.
  induction 1 as [|c'|cls c' Hc|r1 r2 s1 s2 H1 IH1 H2 IH2|r1 r2 w H IH
                 |r1 r2 w H IH|r|r s1 s2 H1 IH1 H2 IH2];
    intros s E; simpl.
  - discriminate.
  - injection E as -> <-. rewrite Ascii.eqb_refl. constructor.
  - injection E as -> <-. rewrite Hc. constructor.
  - apply app_eq_cons in E as [[-> ->]|(s1' & -> & ->)].
    + rewrite (matches_nullable r1 "" H1 eq_refl). apply m_alt_r. auto.
    + destruct (nullable r1).
      * apply m_alt_l. constructor; auto.
      * constructor; auto.
  - apply m_alt_l. auto.
  - apply m_alt_r. auto.
  - discriminate.
  - apply app_eq_cons in E as [[-> ->]|(s1' & -> & ->)].
    + apply (IH2 s eq_refl).
    + constructor; auto.
Qed.

Lemma deriv_spec (c : ascii) (r : regex) (s : string) :
  matches (deriv c r) s <-> matches r (String c s).
Proof.
  split; [apply deriv_sound | intros H; now apply (deriv_complete c r _ H)].
Qed.

Theorem test_spec (r : regex) (s : string) : test r s = true <-> matches r s.
Proof.
  revert r. induction s as [|c s IH]; intros r; simpl.
  - apply nullable_spec.
  - rewrite IH. apply deriv_spec.
Qed.

(** Closure of [r*] and [r+] under concatenation. *)
Lemma star_app (r : regex) (s1 s2 : string) :
  matches (Star r) s1 -> matches (Star r) s2 -> matches (Star r) (s1 +:+ s2).
Proof.
  intros H1 H2. remember (Star r) as r' eqn:E.
  induction H1 as [| | | | | |r0|r0 a b Ha _ Hb IHb]; try discriminate.
  - assumption.
  - injection E as ->. rewrite app_assoc. constructor; auto.
Qed.

Lemma plus_star (r : regex) (s : string) :
  matches (Plus r) s -> matches (Star r) s.
Proof. intros H. inversion H; subst. now constructor. Qed.

Lemma plus_app (r : regex) (s1 s2 : string) :
  matches (Plus r) s1 -> matches (Plus r) s2 -> matches (Plus r) (s1 +:+ s2).
Proof.
  intros H1 H2. inversion H1; subst. rewrite app_assoc.
  constructor; [assumption|]. apply star_app; [assumption|].
  now apply plus_star.
Qed.


Lemma plus_concat (r : regex) (l : list string) :
  l <> [] -> Forall (matches (Plus r)) l ->
  matches (Plus r) (fold_right String.append "" l).
Proof.
  intros Hne Hl. induction Hl as [|a l Ha Hl IH]; [contradiction|].
  destruct l as [|b l].
  - simpl. now rewrite app_nil_r.
  - apply plus_app; [assumption|]. now apply IH.
Qed.

(** The language of [r*] and of [r+], as sequences of matches of [r]. *)
Lemma star_pieces (r : regex) (s : string) :
  matches (Star r) s <->
  exists l, Forall (matches r) l /\ s = fold_right String.append "" l.
Proof.
  split.
  - intros H. remember (Star r) as r' eqn:E.
    induction H as [| | | | | |r0|r0 a b Ha _ Hb IHb]; try discriminate.
    + exists []. split; [constructor | reflexivity].
    + injection E as ->. destruct (IHb eq_refl) as (l & Hl & ->).
      exists (a :: l). split; [constructor; assumption | reflexivity].
  - intros (l & Hl & ->). induction Hl as [|a l Ha _ IH]; simpl.
    + constructor.
    + now constructor.
Qed.

Lemma plus_pieces (r : regex) (s : string) :
  matches (Plus r) s <->
  exists l, l <> [] /\ Forall (matches r) l /\ s = fold_right String.append "" l.
Proof.
  split.
  - intros H. inversion H as [| | |r1 r2 a b Ha Hb| | | |]; subst.
    apply star_pieces in Hb as (l & Hl & ->).
    exists (a :: l). split; [discriminate|]. split; [now constructor | reflexivity].
  - intros (l & Hne & Hl & ->). destruct Hl as [|a l Ha Hl]; [contradiction|].
    simpl. constructor; [assumption|]. apply star_pieces. eauto.
Qed.

End RegexFacts.

(** ** Validation *)

Module PathFacts.
Import Regex StrFacts RegexFacts.

Lemma N_of_ascii_inj (a b : ascii) : N_of_ascii a = N_of_ascii b -> a = b.
Proof.
  intros E. rewrite <- (ascii_N_embedding a), <- (ascii_N_embedding b).
  now rewrite E.
Qed.

Lemma in_range_single (x c : ascii) : in_range c (x, x) = true <-> c = x.
Proof.
  unfold in_range; simpl. rewrite andb_true_iff, !N.leb_le. split.
  - intros [H1 H2]. apply N_of_ascii_inj. lia.
  - intros ->. lia.
Qed.

Lemma in_range_bounds (lo hi c : ascii) :
  in_range c (lo, hi) = true <->
  (N_of_ascii lo <= N_of_ascii c <= N_of_ascii hi)%N.
Proof. unfold in_range; simpl. now rewrite andb_true_iff, !N.leb_le. Qed.

Lemma tokenClass_spec (c : ascii) :
  in_class tokenClass c = true <-> Spec.tokenChar c.
Proof.
  unfold in_class, tokenClass, Spec.tokenChar, existsb.
  rewrite !orb_true_iff, !in_range_single, !in_range_bounds.
  intuition discriminate.
Qed.

Lemma token_language (t : string) :
  matches (Plus (Class tokenClass)) t <-> Spec.token t.
Proof.
  split.
  - intros (l & Hne & Hl & ->)%plus_pieces.
    induction Hl as [|a l Ha Hl IH]; [contradiction|].
    inversion Ha as [| |cls c Hc| | | | |]; subst.
    apply tokenClass_spec in Hc. simpl. rewrite app_cons, app_nil_l.
    destruct l as [|b l]; [now constructor|].
    apply Spec.token_more; [assumption|]. now apply IH.
  - induction 1 as [c Hc|c s Hc _ IH].
    + rewrite <- (app_nil_r (String c "")).
      constructor; constructor. now apply tokenClass_spec.
    + change (String c s) with (String c "" +:+ s).
      constructor; [|now apply plus_star].
      constructor. now apply tokenClass_spec.
Qed.

Lemma group_language (g : string) : matches pathGroup g <-> Spec.group g.
Proof.
  unfold pathGroup, Spec.group. split.
  - intros H.
    inversion H as [| | |r1 r2 a b Ha Hb| | | |]; subst.
    inversion Ha; subst.
    inversion Hb as [| | |r1 r2 o t Ho Ht| | | |]; subst.
    apply token_language in Ht. exists t. split; [assumption|].
    inversion Ho as [| | | |r1 r2 w Hw|r1 r2 w Hw| |]; subst;
      inversion Hw; subst; [right | left]; reflexivity.
  - intros (t & Ht & [-> | ->]); apply token_language in Ht.
    + constructor; [constructor|].
      rewrite <- (app_nil_l t). constructor; [|assumption].
      apply m_alt_r. constructor.
    + change ("/:" +:+ t) with ("/" +:+ (":" +:+ t)).
      constructor; [constructor|].
      constructor; [|assumption]. apply m_alt_l. constructor.
Qed.

(** The language of the validator's expression is the specification's
    "one or more groups". *)
Lemma path_language (s : string) : matches pathRegex s <-> Spec.groups s.
Proof.
  unfold pathRegex, Spec.groups. rewrite plus_pieces.
  split; intros (l & Hne & Hl & ->); exists l; repeat split; auto;
    eapply Forall_impl; try eassumption; intros g; apply group_language.
Qed.

Lemma isValid_string (s : string) :
  isValidPathForNamedRoute (JSString s) = true <->
  s = "/" \/ matches pathRegex s.
Proof.
  unfold isValidPathForNamedRoute. simpl.
  destruct (String.eqb_spec s "/") as [->|Hne].
  - tauto.
  - rewrite test_spec. tauto.
Qed.

(** The root alone is not in the language of the expression: the test
    [path === '/'] is what accepts it. *)
Lemma root_not_matched : ~ matches pathRegex "/".
Proof. intros H%test_spec. discriminate. Qed.

End PathFacts.

(** ** Path hierarchy joining *)

Module BuildPathFacts.
Import StrFacts.

Lemma slashIgnored_filter (pathHierarchy acc : list string) :
  fold_left
    (fun slashIgnored path =>
       if negb (path =? "/") then slashIgnored ++ [path] else slashIgnored)
    pathHierarchy acc
  = acc ++ List.filter (fun fragment => negb (fragment =? "/")) pathHierarchy.
Proof.
  revert acc. induction pathHierarchy as [|p l IH]; intros acc; simpl.
  - now rewrite List.app_nil_r.
  - rewrite IH. destruct (negb (p =? "/")); [|reflexivity].
    now rewrite <- List.app_assoc.
Qed.

(** The code computes what the specification describes. *)
Lemma buildPath_refines (pathHierarchy : list string) :
  buildPath pathHierarchy = Spec.joinFragments pathHierarchy.
Proof.
  unfold buildPath, Spec.joinFragments.
  rewrite slashIgnored_filter, List.app_nil_l.
  destruct (List.filter _ pathHierarchy) as [|x l]; [reflexivity|].
  cbv zeta. change (length (x :: l) =? 0)%nat with false. cbv iota.
  apply join_empty_sep.
Qed.

End BuildPathFacts.

(** ** Tokenization *)

Module TokenFacts.
Import StrFacts.

Lemma toToken_cons (c : ascii) (s : string) :
  toToken (String c s)
  = if Ascii.eqb c ":" then {| text := s; input := true |}
    else {| text := String c s; input := false |}.
Proof.
  unfold toToken. rewrite substringFrom_1.
  assert (E : ((0 <? String.length (String c s))%nat
               && (Str.charAt 0 (String c s) =? ":")) = Ascii.eqb c ":").
  { unfold Str.charAt. simpl. destruct (Ascii.eqb c ":"); reflexivity. }
  now rewrite E.
Qed.

(** Rendering the token of a segment gives the segment back, whatever
    the segment. *)
Lemma render_toToken (item : string) :
  (let str := text (toToken item) in
   if input (toToken item) then ":" +:+ str else str) = item.
Proof.
  destruct item as [|c s]; [reflexivity|].
  rewrite toToken_cons. destruct (Ascii.eqb_spec c ":") as [->|Hne]; reflexivity.
Qed.

Lemma tokensToString_toToken (items : list string) :
  tokensToString (map toToken items) = Str.join "/" items.
Proof.
  unfold tokensToString. f_equal. rewrite map_map.
  induction items as [|item items IH]; [reflexivity|].
  simpl map. rewrite IH. f_equal. apply render_toToken.
Qed.

Lemma roundtrip_any (p : string) :
  tokensToString (map toToken (Str.split "/" p)) = p.
Proof. rewrite tokensToString_toToken. apply join_split. Qed.

End TokenFacts.

(** C5. [buildPath] drops every fragment equal to ["/"], concatenates the
    remaining fragments in order with no separator, and returns ["/"] when
    nothing remains; the four documented examples evaluate as stated. *)
Theorem buildPath_drops_and_concatenates :
  (forall pathHierarchy : list string,
      buildPath pathHierarchy
      = match List.filter (fun fragment => negb (fragment =? "/")) pathHierarchy with
        | [] => "/"
        | remaining => fold_right String.append "" remaining
        end)
  /\ buildPath ["/"] = "/"
  /\ buildPath ["/foo"; "/:slug"] = "/foo/:slug"
  /\ buildPath ["/foo"; "/bar/:slug"; "/wow"] = "/foo/bar/:slug/wow"
  /\ buildPath ["/foo"; "/"; "/deep-foo"] = "/foo/deep-foo".
Proof.
  split; [|repeat split; reflexivity].
  intros pathHierarchy. apply BuildPathFacts.buildPath_refines.
Qed.

(** C6. For every valid pattern [p], splitting [p] on [/], converting each
    segment with [toToken] and rendering the tokens with [tokensToString]
    gives [p] back. *)
Theorem tokens_roundtrip (p : string) :
  isValidPathForNamedRoute (JSString p) = true ->
  tokensToString (map toToken (Str.split "/" p)) = p.
Proof. intros _. apply TokenFacts.roundtrip_any. Qed.

Lemma tokens_roundtrip_witness :
  tokensToString (map toToken (Str.split "/" "/foo/:bar")) = "/foo/:bar".
Proof. apply (tokens_roundtrip "/foo/:bar"). reflexivity. Defined.

(** C7. When every fragment of the hierarchy is ["/"] or a valid path, the
    path that [buildPath] returns is a valid path. *)
Theorem buildPath_valid (pathHierarchy : list string) :
  Forall (fun fragment =>
            fragment = "/" \/ isValidPathForNamedRoute (JSString fragment) = true)
         pathHierarchy ->
  isValidPathForNamedRoute (JSString (buildPath pathHierarchy)) = true.
Proof.
  intros Hwf. rewrite BuildPathFacts.buildPath_refines. unfold Spec.joinFragments.
  assert (Hkept : Forall (Regex.matches pathRegex)
            (List.filter (fun fragment => negb (fragment =? "/")) pathHierarchy)).
  { induction Hwf as [|f l Hf _ IH]; simpl; [constructor|].
    destruct (String.eqb_spec f "/") as [->|Hne]; simpl; [assumption|].
    constructor; [|assumption].
    destruct Hf as [->|Hf]; [contradiction|].
    apply PathFacts.isValid_string in Hf as [->|Hf]; [contradiction | assumption]. }
  destruct (List.filter _ pathHierarchy) as [|x l]; [reflexivity|].
  apply PathFacts.isValid_string. right.
  apply RegexFacts.plus_concat; [discriminate | exact Hkept].
Qed.

Lemma buildPath_valid_witness :
  isValidPathForNamedRoute (JSString (buildPath ["/foo"; "/"; "/bar/:slug"])) = true.
Proof.
  apply (buildPath_valid ["/foo"; "/"; "/bar/:slug"]).
  repeat constructor; (left; reflexivity) || (right; reflexivity).
Defined.

(** C8. [isValidPathForNamedRoute] returns [true] exactly for the string
    ["/"] and for the strings that match [^(/:?[-_.a-zA-Z0-9]+)+$], that
    is, the strings made of one or more groups of [/], an optional [:] and
    a token; it returns [false] for every other input: values that are not
    strings, the empty string, and strings with adjacent slashes such as
    [/foo//bar]. *)
Theorem isValidPathForNamedRoute_spec :
  (forall x : JSValue,
      isValidPathForNamedRoute x = true <->
      exists s, x = JSString s /\ (s = "/" \/ Regex.matches pathRegex s))
  /\ (forall x : JSValue,
      isValidPathForNamedRoute x = false <->
      ~ exists s, x = JSString s /\ (s = "/" \/ Regex.matches pathRegex s))
  /\ (forall s : string, Regex.matches pathRegex s <-> Spec.groups s)
  /\ isValidPathForNamedRoute JSUndefined = false
  /\ isValidPathForNamedRoute JSNull = false
  /\ (forall b, isValidPathForNamedRoute (JSBoolean b) = false)
  /\ (forall n, isValidPathForNamedRoute (JSNumber n) = false)
  /\ (forall items, isValidPathForNamedRoute (JSArray items) = false)
  /\ (forall o, isValidPathForNamedRoute (JSObject o) = false)
  /\ isValidPathForNamedRoute (JSString "") = false
  /\ isValidPathForNamedRoute (JSString "/foo//bar") = false
  /\ isValidPathForNamedRoute (JSString "/") = true
  /\ isValidPathForNamedRoute (JSString "/foo/:bar") = true.
Proof.
  assert (Htrue : forall x : JSValue,
             isValidPathForNamedRoute x = true <->
             exists s, x = JSString s /\ (s = "/" \/ Regex.matches pathRegex s)).
  { intros x. split.
    - destruct x; try discriminate.
      intros H%PathFacts.isValid_string. eauto.
    - intros (s & -> & H). now apply PathFacts.isValid_string. }
  split; [exact Htrue|].
  split; [|split; [exact PathFacts.path_language | repeat split; reflexivity]].
  intros x. rewrite <- Htrue.
  destruct (isValidPathForNamedRoute x); split; congruence.
Qed.

(** ** Registration *)

Module RegisterFacts.

Lemma conflicts_spec (rt : RouteTable) (name newPattern : string) :
  conflicts (property rt name) newPattern = true <->
  (exists def, rt !! name = Some def /\ pattern def <> newPattern)
  \/ (rt !! name = None /\ inherits name = true).
Proof.
  unfold property. destruct (rt !! name) as [def|]; simpl.
  - destruct (String.eqb_spec newPattern (pattern def)) as [E|NE]; simpl; split.
    + discriminate.
    + intros [(d & [= <-] & H) | [[=] _]]. congruence.
    + intros _. left. exists def. split; congruence.
    + reflexivity.
  - destruct (inherits name); simpl; split; auto; try discriminate.
    intros [(d & [=] & _) | [_ [=]]].
Qed.

Lemma no_conflict_spec (rt : RouteTable) (name newPattern : string) :
  conflicts (property rt name) newPattern = false <->
  (forall stored, rt !! name = Some stored -> pattern stored = newPattern)
  /\ (rt !! name = None -> inherits name = false).
Proof.
  unfold property. destruct (rt !! name) as [def|]; simpl.
  - destruct (String.eqb_spec newPattern (pattern def)) as [E|NE]; simpl; split.
    + intros _. split; [intros stored [= <-]; congruence | discriminate].
    + reflexivity.
    + discriminate.
    + intros [H _]. specialize (H def eq_refl). congruence.
  - destruct (inherits name); simpl; split; auto.
    + discriminate.
    + intros [_ H]. now apply H.
    + intros _. split; [intros stored [=] | reflexivity].
Qed.

(** The three ways out of [register], in the order of the code. *)
Lemma register_cases (nameHierarchy pathHierarchy : list string) (rt : RouteTable) :
  register nameHierarchy pathHierarchy rt
  = let name := Str.join "." nameHierarchy in
    let pattern := buildPath pathHierarchy in
    if conflicts (property rt name) pattern
    then (Eff.Threw (DuplicateRouteName name), rt)
    else if negb (isValidPathForNamedRoute (JSString pattern))
         then (Eff.Threw (MalformedPattern pattern), rt)
         else (Eff.Returned tt,
               <[name := {| pattern := pattern;
                            tokens := map toToken (Str.split "/" pattern) |}]> rt).
Proof.
  unfold register, Eff.bind, Eff.read, Eff.throwIf, Eff.throw, Eff.ret, Eff.write.
  cbv zeta.
  destruct (conflicts _ _); [reflexivity|].
  destruct (negb _); reflexivity.
Qed.

(** [register] returns only when neither check fires. *)
Lemma register_returned (nameHierarchy pathHierarchy : list string) (rt : RouteTable) :
  fst (register nameHierarchy pathHierarchy rt) = Eff.Returned tt ->
  conflicts (property rt (Str.join "." nameHierarchy)) (buildPath pathHierarchy)
  = false
  /\ isValidPathForNamedRoute (JSString (buildPath pathHierarchy)) = true.
Proof.
  rewrite register_cases. cbv zeta.
  destruct (conflicts _ _); [discriminate|].
  destruct (isValidPathForNamedRoute _); [auto | discriminate].
Qed.

End RegisterFacts.

(** C1. When [register] returns without throwing, the table it leaves is
    the table it was given with the entry for [nameHierarchy.join('.')] set
    to the definition made of [buildPath(pathHierarchy)] and of the tokens
    of that pattern; every other entry is as it was. *)
Theorem register_writes_entry
    (rt : RouteTable) (nameHierarchy pathHierarchy : list string) :
  fst (register nameHierarchy pathHierarchy rt) = Eff.Returned tt ->
  let name := Str.join "." nameHierarchy in
  let newPattern := buildPath pathHierarchy in
  let def := {| pattern := newPattern;
                tokens := map toToken (Str.split "/" newPattern) |} in
  snd (register nameHierarchy pathHierarchy rt) = <[name := def]> rt
  /\ snd (register nameHierarchy pathHierarchy rt) !! name = Some def
  /\ forall other : string,
      other <> name ->
      snd (register nameHierarchy pathHierarchy rt) !! other = rt !! other.
Proof.
  intros Hok name pat def.
  destruct (RegisterFacts.register_returned _ _ _ Hok) as [Hc Hv].
  assert (E : snd (register nameHierarchy pathHierarchy rt) = <[name := def]> rt).
  { rewrite RegisterFacts.register_cases. cbv zeta. now rewrite Hc, Hv. }
  rewrite E. split; [reflexivity|]. split.
  - apply lookup_insert_eq.
  - intros other Hne. now apply lookup_insert_ne.
Qed.

Lemma register_writes_entry_witness :
  snd (register ["a"; "b"] ["/a"; "/:b"] ∅) !! "a.b"
  = Some {| pattern := "/a/:b";
            tokens := [ {| text := ""; input := false |};
                        {| text := "a"; input := false |};
                        {| text := "b"; input := true |} ] |}.
Proof.
  apply (register_writes_entry ∅ ["a"; "b"] ["/a"; "/:b"]). reflexivity.
Defined.

(** C2.  The code departs from the claim on the names that a table
    inherits.  On the empty table [{}], registering the name [constructor]
    with the valid pattern [/foo] throws the duplicate-name error, although
    the table has no entry for that name, none with a different pattern
    in particular; the table is left empty. *)
Theorem register_duplicate_without_entry :
  (∅ : RouteTable) !! Str.join "." ["constructor"] = None
  /\ isValidName (JSString (Str.join "." ["constructor"])) = true
  /\ isValidPathForNamedRoute (JSString (buildPath ["/foo"])) = true
  /\ register ["constructor"] ["/foo"] ∅
     = (Eff.Threw (DuplicateRouteName "constructor"), ∅).
Proof. repeat split. Qed.

(** C3, as amended.  When the computed pattern is not a valid path,
    [register] throws and leaves the table as it was.  It throws the
    duplicate-name error when the table has an entry for the computed name
    with a different stored pattern, because the duplicate check comes
    first.  It throws the malformed-pattern error when the table has an
    entry for the name with the same pattern, or has no entry for it and
    the name is not one that the table inherits.  In particular
    [register(table, ['a'], ['/foo/:'])] throws the malformed-pattern error
    on every table without a conflicting entry for [a]. *)
Theorem register_malformed
    (rt : RouteTable) (nameHierarchy pathHierarchy : list string) :
  isValidPathForNamedRoute (JSString (buildPath pathHierarchy)) = false ->
  let name := Str.join "." nameHierarchy in
  let newPattern := buildPath pathHierarchy in
  ((forall stored, rt !! name = Some stored -> pattern stored = newPattern) ->
   (rt !! name = None -> inherits name = false) ->
   fst (register nameHierarchy pathHierarchy rt)
   = Eff.Threw (MalformedPattern newPattern))
  /\ ((exists stored, rt !! name = Some stored /\ pattern stored <> newPattern) ->
      fst (register nameHierarchy pathHierarchy rt)
      = Eff.Threw (DuplicateRouteName name))
  /\ (exists e, fst (register nameHierarchy pathHierarchy rt) = Eff.Threw e)
  /\ snd (register nameHierarchy pathHierarchy rt) = rt
  /\ isValidPathForNamedRoute (JSString (buildPath ["/foo/:"])) = false
  /\ ((forall stored, rt !! "a" = Some stored -> pattern stored = "/foo/:") ->
      register ["a"] ["/foo/:"] rt = (Eff.Threw (MalformedPattern "/foo/:"), rt)).
Proof.
  intros Hbad name pat. subst name pat. repeat split.
  - intros Hsame Hown. rewrite RegisterFacts.register_cases. cbv zeta.
    rewrite (proj2 (RegisterFacts.no_conflict_spec _ _ _) (conj Hsame Hown)), Hbad.
    reflexivity.
  - intros Hdup. rewrite RegisterFacts.register_cases. cbv zeta.
    now rewrite (proj2 (RegisterFacts.conflicts_spec _ _ _) (or_introl Hdup)).
  - rewrite RegisterFacts.register_cases. cbv zeta.
    destruct (conflicts _ _); [eauto|]. rewrite Hbad. eauto.
  - rewrite RegisterFacts.register_cases. cbv zeta.
    destruct (conflicts _ _); [reflexivity|]. now rewrite Hbad.
  - intros Hsame. rewrite RegisterFacts.register_cases. cbv zeta.
    change (Str.join "." ["a"]) with "a".
    change (buildPath ["/foo/:"]) with "/foo/:".
    rewrite (proj2 (RegisterFacts.no_conflict_spec rt "a" "/foo/:"));
      [reflexivity|]. split; [exact Hsame | reflexivity].
Qed.

Lemma register_malformed_witness :
  snd (register ["a"] ["/foo/:"] (snd (register ["a"; "b"] ["/a"; "/b"] ∅)))
  = snd (register ["a"; "b"] ["/a"; "/b"] ∅).
Proof.
  apply (register_malformed (snd (register ["a"; "b"] ["/a"; "/b"] ∅))
           ["a"] ["/foo/:"]).
  reflexivity.
Defined.

(** C3, as stated, fails: on a table where [a] is registered with the
    pattern [/x], registering [a] with the malformed pattern [/foo/:]
    throws the duplicate-name error, not the malformed-pattern error. *)
Lemma register_malformed_masked_by_duplicate :
  isValidPathForNamedRoute (JSString (buildPath ["/foo/:"])) = false
  /\ fst (register ["a"] ["/foo/:"] (snd (register ["a"] ["/x"] ∅)))
     = Eff.Threw (DuplicateRouteName "a")
  /\ fst (register ["a"] ["/foo/:"] (snd (register ["a"] ["/x"] ∅)))
     <> Eff.Threw (MalformedPattern (buildPath ["/foo/:"]))
  /\ ~ (forall (rt : RouteTable) (nameHierarchy pathHierarchy : list string),
          isValidPathForNamedRoute (JSString (buildPath pathHierarchy)) = false ->
          fst (register nameHierarchy pathHierarchy rt)
          = Eff.Threw (MalformedPattern (buildPath pathHierarchy))).
Proof.
  assert (Hbad : isValidPathForNamedRoute (JSString (buildPath ["/foo/:"])) = false)
    by reflexivity.
  assert (Hdup : fst (register ["a"] ["/foo/:"] (snd (register ["a"] ["/x"] ∅)))
                 = Eff.Threw (DuplicateRouteName "a")) by reflexivity.
  repeat split; try assumption.
  - rewrite Hdup. discriminate.
  - intros Hclaim.
    specialize (Hclaim (snd (register ["a"] ["/x"] ∅)) ["a"] ["/foo/:"] Hbad).
    rewrite Hdup in Hclaim. discriminate.
Qed.

(** C4. When [register] throws, the table is left as it was. *)
Theorem register_error_keeps_table
    (rt : RouteTable) (nameHierarchy pathHierarchy : list string)
    (e : RegisterError) :
  fst (register nameHierarchy pathHierarchy rt) = Eff.Threw e ->
  snd (register nameHierarchy pathHierarchy rt) = rt.
Proof.
  rewrite RegisterFacts.register_cases. cbv zeta.
  destruct (conflicts _ _); [reflexivity|].
  destruct (negb _); [reflexivity | discriminate].
Qed.

Lemma register_error_keeps_table_witness :
  snd (register ["a"; "b"] ["/a"; "/x"] (snd (register ["a"; "b"] ["/a"; "/b"] ∅)))
  = snd (register ["a"; "b"] ["/a"; "/b"] ∅).
Proof.
  apply (register_error_keeps_table (snd (register ["a"; "b"] ["/a"; "/b"] ∅))
           ["a"; "b"] ["/a"; "/x"] (DuplicateRouteName "a.b")).
  reflexivity.
Defined.

(** ** Terminal routes *)

(** C9. [isTerminalRoute] returns [true] exactly when the previous event
    is defined, its operation is [PUSH], the operation of the event is
    [POP], and the two events have the same name; in every other case, an
    undefined previous event included, it returns [false]. *)
Theorem isTerminalRoute_spec
    {Operation : Type} `{EqDecision Operation} (PUSH POP : Operation)
    (previousEvent : option (Event (Operation := Operation)))
    (event : Event (Operation := Operation)) :
  (isTerminalRoute PUSH POP previousEvent event = true <->
   exists previous,
     previousEvent = Some previous
     /\ operation previous = PUSH
     /\ operation event = POP
     /\ name previous = name event)
  /\ (isTerminalRoute PUSH POP previousEvent event = false <->
      ~ exists previous,
          previousEvent = Some previous
          /\ operation previous = PUSH
          /\ operation event = POP
          /\ name previous = name event)
  /\ isTerminalRoute PUSH POP None event = false.
Proof.
  assert (Htrue : isTerminalRoute PUSH POP previousEvent event = true <->
                  exists previous,
                    previousEvent = Some previous
                    /\ operation previous = PUSH
                    /\ operation event = POP
                    /\ name previous = name event).
  { unfold isTerminalRoute. destruct previousEvent as [previous|].
    - destruct (bool_decide_reflect (operation previous = PUSH)) as [Hpush|Hpush];
        destruct (bool_decide_reflect (operation event = POP)) as [Hpop|Hpop]; simpl.
      + rewrite String.eqb_eq. split.
        * intros Hname. exists previous. auto.
        * intros (p & [= <-] & _ & _ & Hname). exact Hname.
      + split; [discriminate | intros (p & [= <-] & _ & Hp & _); contradiction].
      + split; [discriminate | intros (p & [= <-] & Hp & _); contradiction].
      + split; [discriminate | intros (p & [= <-] & Hp & _); contradiction].
    - split; [discriminate | intros (p & [=] & _)]. }
  split; [exact Htrue|]. split; [|reflexivity].
  rewrite <- Htrue. destruct (isTerminalRoute PUSH POP previousEvent event);
    split; congruence.
Qed.

(** ** Deep flattening *)

Module FlattenFacts.

Lemma push_all (temp ret : list JSValue) :
  fold_left (fun ret x => ret ++ [x]) temp ret = ret ++ temp.
Proof.
  revert ret. induction temp as [|x temp IH]; intros ret; simpl.
  - now rewrite List.app_nil_r.
  - rewrite IH. now rewrite <- List.app_assoc.
Qed.

Lemma flattenArray_unfold (nestedArrays : list JSValue) :
  flattenArray (JSArray nestedArrays)
  = fold_left
      (fun ret item =>
         if negb (isArray item) then ret ++ [item]
         else fold_left (fun ret x => ret ++ [x]) (flattenArray item) ret)
      nestedArrays [].
Proof. reflexivity. Qed.

(** One round of the outer loop appends the leaves of the item. *)
Lemma loop_leaves (nestedArrays ret : list JSValue) :
  Forall (fun item => isArray item = true -> flattenArray item = Spec.leaves item)
         nestedArrays ->
  fold_left
    (fun ret item =>
       if negb (isArray item) then ret ++ [item]
       else fold_left (fun ret x => ret ++ [x]) (flattenArray item) ret)
    nestedArrays ret
  = ret ++ flat_map Spec.leaves nestedArrays.
Proof.
  intros H. revert ret. induction H as [|item items Hitem _ IH]; intros ret; simpl.
  - now rewrite List.app_nil_r.
  - rewrite IH, List.app_assoc. f_equal.
    destruct (isArray item) eqn:E; simpl.
    + now rewrite push_all, Hitem.
    + destruct item; try reflexivity; discriminate.
Qed.

Lemma flattenArray_leaves (v : JSValue) :
  isArray v = true -> flattenArray v = Spec.leaves v.
Proof.
  induction v as [| | | | |items IH|] using JSValue_nested_ind; try discriminate.
  intros _. rewrite flattenArray_unfold.
  now rewrite (loop_leaves items [] IH).
Qed.

Lemma flattenDeep_leaves (nestedArrays : list JSValue) :
  flattenDeep nestedArrays = flat_map Spec.leaves nestedArrays.
Proof. apply (flattenArray_leaves (JSArray nestedArrays)). reflexivity. Qed.

Lemma leaves_flat (v : JSValue) :
  Forall (fun leaf => isArray leaf = false) (Spec.leaves v).
Proof.
  induction v as [| | | | |items IH|] using JSValue_nested_ind;
    try (repeat constructor).
  simpl. induction IH as [|item items Hitem _ IHitems]; simpl.
  - constructor.
  - apply Forall_app. split; assumption.
Qed.

End FlattenFacts.

(** C10. [flattenDeep] returns the leaves of the nested sequence,
    depth-first and left to right: the result is the concatenation of the
    leaves of the elements in order, it holds no sequence, an element that
    is not a sequence passes through unchanged, an empty sequence
    contributes nothing, and [flattenDeep([1, [2, [3, 4], 5], []])] is
    [[1, 2, 3, 4, 5]]. *)
Theorem flattenDeep_spec :
  (forall nestedArrays : list JSValue,
      flattenDeep nestedArrays = flat_map Spec.leaves nestedArrays)
  /\ (forall nestedArrays : list JSValue,
      Forall (fun leaf => isArray leaf = false) (flattenDeep nestedArrays))
  /\ (forall before after : list JSValue,
      flattenDeep (before ++ after) = flattenDeep before ++ flattenDeep after)
  /\ (forall (item : JSValue) (rest : list JSValue),
      flattenDeep (item :: rest)
      = (match item with
         | JSArray inner => flattenDeep inner
         | _ => [item]
         end) ++ flattenDeep rest)
  /\ (forall rest : list JSValue, flattenDeep (JSArray [] :: rest) = flattenDeep rest)
  /\ flattenDeep
       [JSNumber 1; JSArray [JSNumber 2; JSArray [JSNumber 3; JSNumber 4]; JSNumber 5];
        JSArray []]
     = [JSNumber 1; JSNumber 2; JSNumber 3; JSNumber 4; JSNumber 5].
Proof.
  repeat split.
  - apply FlattenFacts.flattenDeep_leaves.
  - intros l. rewrite FlattenFacts.flattenDeep_leaves.
    induction l as [|v l IH]; simpl; [constructor|].
    apply Forall_app. split; [apply FlattenFacts.leaves_flat | assumption].
  - intros before after. rewrite !FlattenFacts.flattenDeep_leaves.
    apply flat_map_app.
  - intros item rest. rewrite !FlattenFacts.flattenDeep_leaves. simpl. f_equal.
    destruct item; try reflexivity.
    simpl. now rewrite FlattenFacts.flattenDeep_leaves.
Qed.

(** * Further properties of the helpers *)

(** ** Names *)

Module NameFacts.
Import Regex StrFacts RegexFacts PathFacts.

Lemma isValidName_string (s : string) :
  isValidName (JSString s) = true <-> Spec.token s.
Proof.
  unfold isValidName, nameRegex. simpl. rewrite test_spec. apply token_language.
Qed.

Lemma token_app (a b : string) :
  Spec.token a -> Spec.token b -> Spec.token (a +:+ b).
Proof.
  intros Ha Hb. induction Ha as [c Hc|c s Hc _ IH]; rewrite app_cons.
  - rewrite app_nil_l. now apply Spec.token_more.
  - now apply Spec.token_more.
Qed.

Lemma occurs_app (c : ascii) (a b : string) :
  occurs c (a +:+ b) = occurs c a || occurs c b.
Proof.
  induction a as [|x a IH]; [reflexivity|].
  rewrite app_cons. simpl. now rewrite IH, orb_assoc.
Qed.

Lemma token_chars (s : string) :
  Spec.token s <->
  s <> "" /\ forall c, occurs c s = true -> Spec.tokenChar c.
Proof.
  split.
  - induction 1 as [c Hc|c s Hc _ [_ IH]]; (split; [discriminate|]);
      intros x; simpl; rewrite orb_true_iff; intros [E|E].
    + apply Ascii.eqb_eq in E as <-. assumption.
    + discriminate.
    + apply Ascii.eqb_eq in E as <-. assumption.
    + now apply IH.
  - intros [Hne Hall]. induction s as [|c s IH]; [contradiction|].
    assert (Hc : Spec.tokenChar c).
    { apply Hall. simpl. now rewrite Ascii.eqb_refl. }
    destruct s as [|c' s]; [now constructor|].
    apply Spec.token_more; [assumption|]. apply IH; [discriminate|].
    intros x Hx. apply Hall. simpl in *. rewrite Hx. apply orb_true_r.
Qed.

Lemma token_excludes (c : ascii) (s : string) :
  in_class tokenClass c = false -> Spec.token s -> occurs c s = false.
Proof.
  intros Hc [_ Hall]%token_chars.
  destruct (occurs c s) eqn:E; [|reflexivity].
  apply Hall, tokenClass_spec in E. congruence.
Qed.

Lemma token_not_empty (s : string) : Spec.token s -> s <> "".
Proof. now intros [H _]%token_chars. Qed.

(** A token does not start with a colon. *)
Lemma token_head (t : string) :
  Spec.token t -> exists c t', t = String c t' /\ Ascii.eqb c ":" = false.
Proof.
  intros Ht. pose proof (token_excludes ":" t eq_refl Ht) as Hno.
  destruct t as [|c t']; [now apply token_not_empty in Ht|].
  exists c, t'. split; [reflexivity|].
  simpl in Hno. now apply orb_false_iff in Hno as [-> _].
Qed.

Lemma rejected_char (c : ascii) (a b : string) :
  in_class tokenClass c = false ->
  isValidName (JSString (a +:+ String c b)) = false.
Proof.
  intros Hc. destruct (isValidName _) eqn:E; [|reflexivity].
  apply isValidName_string, (token_excludes c _ Hc) in E.
  rewrite occurs_app in E. simpl in E. rewrite Ascii.eqb_refl in E.
  now rewrite orb_true_r in E.
Qed.

End NameFacts.

(** X1. [isValidName] returns [true] exactly for the strings that are not
    empty and hold only characters of [[-_.a-zA-Z0-9]]; every value that
    is not a string, and the empty string, give [false]. *)
Theorem isValidName_spec (x : JSValue) :
  (isValidName x = true <->
   exists s, x = JSString s
             /\ s <> ""
             /\ forall c, occurs c s = true -> Spec.tokenChar c)
  /\ ((typeof x =? "string") = false -> isValidName x = false)
  /\ isValidName (JSString "") = false.
Proof.
  split; [|split; [|reflexivity]].
  - split.
    + destruct x; try discriminate.
      intros H%NameFacts.isValidName_string%NameFacts.token_chars. eauto.
    + intros (s & -> & H).
      apply NameFacts.isValidName_string. apply NameFacts.token_chars. exact H.
  - destruct x; try reflexivity. discriminate.
Qed.

Lemma isValidName_spec_witness : isValidName (JSArray [JSString "a"]) = false.
Proof.
  apply (proj1 (proj2 (isValidName_spec (JSArray [JSString "a"])))). reflexivity.
Defined.

(** X2. [isValidName] rejects every string that holds a slash, a colon or
    a space, wherever the character stands. *)
Theorem isValidName_rejects_separators (a b : string) :
  isValidName (JSString (a +:+ "/" +:+ b)) = false
  /\ isValidName (JSString (a +:+ ":" +:+ b)) = false
  /\ isValidName (JSString (a +:+ " " +:+ b)) = false.
Proof. repeat split; now apply NameFacts.rejected_char. Qed.

(** X3. The name of a route is valid when its parts are: joining one or
    more valid names with dots gives a valid name, because the dot is a
    character of the class. *)
Theorem joined_name_valid (nameHierarchy : list string) :
  nameHierarchy <> [] ->
  Forall (fun part => isValidName (JSString part) = true) nameHierarchy ->
  isValidName (JSString (Str.join "." nameHierarchy)) = true.
Proof.
  intros Hne Hall. apply NameFacts.isValidName_string.
  induction Hall as [|part parts Hpart Hparts IH]; [contradiction|].
  apply NameFacts.isValidName_string in Hpart.
  destruct parts as [|next parts]; [exact Hpart|].
  change (Str.join "." (part :: next :: parts))
    with (part +:+ "." +:+ Str.join "." (next :: parts)).
  apply NameFacts.token_app; [assumption|].
  apply NameFacts.token_app; [|now apply IH].
  apply NameFacts.isValidName_string. reflexivity.
Qed.

Lemma joined_name_valid_witness :
  isValidName (JSString (Str.join "." ["article"; "category-list"; "v2"])) = true.
Proof.
  apply (joined_name_valid ["article"; "category-list"; "v2"]).
  - discriminate.
  - repeat constructor.
Defined.

(** X4. A valid name makes a valid path fragment: prefixed with a slash,
    or with a slash and a colon, it satisfies
    [isValidPathForNamedRoute]. *)
Theorem name_makes_valid_path (part : string) :
  isValidName (JSString part) = true ->
  isValidPathForNamedRoute (JSString ("/" +:+ part)) = true
  /\ isValidPathForNamedRoute (JSString ("/:" +:+ part)) = true.
Proof.
  intros Ht%NameFacts.isValidName_string.
  split; apply PathFacts.isValid_string; right; apply PathFacts.path_language;
    [exists ["/" +:+ part] | exists ["/:" +:+ part]];
    (split; [discriminate|]; split;
     [repeat constructor; exists part; auto
     | simpl; now rewrite StrFacts.app_nil_r]).
Qed.

Lemma name_makes_valid_path_witness :
  isValidPathForNamedRoute (JSString ("/" +:+ "slug-id")) = true
  /\ isValidPathForNamedRoute (JSString ("/:" +:+ "slug-id")) = true.
Proof. apply (name_makes_valid_path "slug-id"). reflexivity. Defined.

(** ** Segments and tokens of a valid path *)

Module SegmentFacts.
Import StrFacts NameFacts.

Lemma split_no_sep (sep : ascii) (s : string) :
  occurs sep s = false -> Str.split sep s = [s].
Proof.
  induction s as [|c s IH]; [reflexivity|].
  simpl. intros [Hc Hs]%orb_false_iff. now rewrite Hc, (IH Hs).
Qed.

Lemma split_app_sep (sep : ascii) (a b : string) :
  occurs sep a = false ->
  Str.split sep (a +:+ String sep b) = a :: Str.split sep b.
Proof.
  induction a as [|c a IH].
  - intros _. rewrite app_nil_l. simpl. now rewrite Ascii.eqb_refl.
  - simpl occurs. intros [Hc Ha]%orb_false_iff.
    rewrite app_cons. simpl. now rewrite Hc, (IH Ha).
Qed.

(** Splitting undoes joining when no piece holds the separator. *)
Lemma split_join (sep : ascii) (segs : list string) :
  segs <> [] ->
  Forall (fun seg => occurs sep seg = false) segs ->
  Str.split sep (Str.join (String sep "") segs) = segs.
Proof.
  intros Hne Hall. induction Hall as [|x l Hx Hl IH]; [contradiction|].
  destruct l as [|y l]; [now apply split_no_sep|].
  change (Str.join (String sep "") (x :: y :: l))
    with (x +:+ String sep (Str.join (String sep "") (y :: l))).
  rewrite (split_app_sep _ _ _ Hx). f_equal. now apply IH.
Qed.

(** A path that starts each of its segments with a slash is the join of
    the empty segment and its segments. *)
Lemma join_root (segs : list string) :
  segs <> [] ->
  Str.join "/" ("" :: segs)
  = fold_right String.append "" (map (fun seg => "/" +:+ seg) segs).
Proof.
  intros Hne. destruct segs as [|x l]; [contradiction|]. clear Hne.
  change (Str.join "/" ("" :: x :: l)) with ("/" +:+ Str.join "/" (x :: l)).
  revert x. induction l as [|y l IH]; intros x.
  - simpl. now rewrite app_nil_r.
  - change (Str.join "/" (x :: y :: l)) with (x +:+ "/" +:+ Str.join "/" (y :: l)).
    rewrite IH. simpl. now rewrite !app_assoc.
Qed.

Lemma group_segment (g : string) :
  Spec.group g <-> exists seg, g = "/" +:+ seg /\ segment seg.
Proof.
  split.
  - intros (t & Ht & [-> | ->]).
    + exists t. split; [reflexivity|]. exists t. auto.
    + exists (":" +:+ t). split; [reflexivity|]. exists t. auto.
  - intros (seg & -> & t & Ht & [-> | ->]); exists t; auto.
Qed.

Lemma groups_segments (p : string) :
  Spec.groups p <->
  exists segs, segs <> [] /\ Forall segment segs /\ p = Str.join "/" ("" :: segs).
Proof.
  split.
  - intros (gs & Hne & Hgs & ->).
    assert (Hsegs : exists segs, gs = map (fun seg => "/" +:+ seg) segs
                                 /\ Forall segment segs).
    { clear Hne. induction Hgs as [|g gs Hg _ (segs & -> & Hsegs)].
      - exists []. split; [reflexivity | constructor].
      - apply group_segment in Hg as (seg & -> & Hseg).
        exists (seg :: segs). split; [reflexivity | now constructor]. }
    destruct Hsegs as (segs & -> & Hsegs). exists segs.
    assert (Hne' : segs <> []) by (intros ->; contradiction).
    repeat split; [assumption | assumption |]. now rewrite join_root.
  - intros (segs & Hne & Hsegs & ->). rewrite (join_root _ Hne).
    exists (map (fun seg => "/" +:+ seg) segs).
    split; [destruct segs; [contradiction | discriminate]|].
    split; [|reflexivity]. clear Hne.
    induction Hsegs as [|seg segs Hseg _ IH]; simpl; constructor; auto.
    apply group_segment. eauto.
Qed.

Lemma segment_no_slash (seg : string) : segment seg -> occurs "/" seg = false.
Proof.
  intros (t & Ht & [-> | ->]).
  - now apply token_excludes.
  - change (":" +:+ t) with (String ":" t). simpl. now apply token_excludes.
Qed.

(** The token of a segment carries a valid name. *)
Lemma segment_token (seg : string) :
  segment seg -> isValidName (JSString (text (toToken seg))) = true.
Proof.
  intros (t & Ht & [-> | ->]).
  - destruct (token_head t Ht) as (c & t' & -> & Hc).
    rewrite TokenFacts.toToken_cons, Hc. now apply isValidName_string.
  - change (":" +:+ t) with (String ":" t).
    rewrite TokenFacts.toToken_cons. simpl. now apply isValidName_string.
Qed.

Lemma tokensToString_render (tokens : list Token) :
  tokensToString tokens = Str.join "/" (map render tokens).
Proof. reflexivity. Qed.

Lemma render_segment (token : Token) :
  isValidName (JSString (text token)) = true ->
  segment (render token) /\ toToken (render token) = token.
Proof.
  intros Ht%isValidName_string. destruct token as [t [|]]; unfold render; simpl.
  - split; [exists t; auto|].
    change (":" +:+ t) with (String ":" t). now rewrite TokenFacts.toToken_cons.
  - split; [exists t; auto|].
    destruct (token_head t Ht) as (c & t' & -> & Hc).
    now rewrite TokenFacts.toToken_cons, Hc.
Qed.

(** The tokens of a valid path. *)
Lemma valid_path_tokens (p : string) :
  isValidPathForNamedRoute (JSString p) = true ->
  (p = "/" /\ map toToken (Str.split "/" p) = [rootToken; rootToken])
  \/ (p <> "/"
      /\ exists toks,
          map toToken (Str.split "/" p) = rootToken :: toks
          /\ toks <> []
          /\ Forall (fun tok => isValidName (JSString (text tok)) = true) toks).
Proof.
  intros [-> | Hp]%PathFacts.isValid_string; [left; split; reflexivity|].
  right. split; [intros ->; now apply PathFacts.root_not_matched|].
  apply PathFacts.path_language, groups_segments in Hp
    as (segs & Hne & Hsegs & ->).
  rewrite (split_join "/" ("" :: segs)); [|discriminate|].
  - exists (map toToken segs). repeat split.
    + destruct segs; [contradiction | discriminate].
    + apply Forall_map. eapply Forall_impl; [exact Hsegs|].
      intros seg. apply segment_token.
  - constructor; [reflexivity|]. eapply Forall_impl; [exact Hsegs|].
    intros seg. apply segment_no_slash.
Qed.

End SegmentFacts.

(** X5. The tokens of a valid path other than the root are the token of
    the empty segment followed by one or more tokens whose text is a valid
    name; the tokens of the root are two tokens of the empty segment. *)
Theorem tokens_of_valid_path (p : string) :
  isValidPathForNamedRoute (JSString p) = true ->
  (p = "/" /\ map toToken (Str.split "/" p) = [rootToken; rootToken])
  \/ (p <> "/"
      /\ exists toks,
          map toToken (Str.split "/" p) = rootToken :: toks
          /\ toks <> []
          /\ Forall (fun tok => isValidName (JSString (text tok)) = true) toks).
Proof. apply SegmentFacts.valid_path_tokens. Qed.

Lemma tokens_of_valid_path_witness :
  ("/foo/:bar" = "/" /\ map toToken (Str.split "/" "/foo/:bar") = [rootToken; rootToken])
  \/ ("/foo/:bar" <> "/"
      /\ exists toks,
          map toToken (Str.split "/" "/foo/:bar") = rootToken :: toks
          /\ toks <> []
          /\ Forall (fun tok => isValidName (JSString (text tok)) = true) toks).
Proof. apply (tokens_of_valid_path "/foo/:bar"). reflexivity. Defined.

(** X6. Conversely, one or more tokens with valid names, behind the token
    of the empty segment, render to a valid path whose tokens they are. *)
Theorem valid_tokens_roundtrip (toks : list Token) :
  toks <> [] ->
  Forall (fun tok => isValidName (JSString (text tok)) = true) toks ->
  isValidPathForNamedRoute (JSString (tokensToString (rootToken :: toks))) = true
  /\ map toToken (Str.split "/" (tokensToString (rootToken :: toks)))
     = rootToken :: toks.
Proof.
  intros Hne Hall. rewrite SegmentFacts.tokensToString_render.
  change (map render (rootToken :: toks))
    with ("" :: map render toks).
  assert (Hsegs : Forall segment (map render toks)).
  { apply Forall_map. eapply Forall_impl; [exact Hall|].
    intros tok Htok. now apply SegmentFacts.render_segment. }
  split.
  - apply PathFacts.isValid_string. right.
    apply PathFacts.path_language, SegmentFacts.groups_segments.
    exists (map render toks). repeat split; [|assumption].
    destruct toks; [contradiction | discriminate].
  - rewrite SegmentFacts.split_join; [|discriminate|].
    + simpl map. f_equal. rewrite map_map.
      clear Hne Hsegs. induction Hall as [|tok toks Htok _ IH]; [reflexivity|].
      simpl. rewrite IH. f_equal. now apply SegmentFacts.render_segment.
    + constructor; [reflexivity|]. eapply Forall_impl; [exact Hsegs|].
      intros seg. apply SegmentFacts.segment_no_slash.
Qed.

Lemma valid_tokens_roundtrip_witness :
  isValidPathForNamedRoute
    (JSString (tokensToString
                 [rootToken; {| text := "article"; input := false |};
                  {| text := "slug"; input := true |}])) = true
  /\ map toToken
       (Str.split "/"
          (tokensToString
             [rootToken; {| text := "article"; input := false |};
              {| text := "slug"; input := true |}]))
     = [rootToken; {| text := "article"; input := false |};
        {| text := "slug"; input := true |}].
Proof.
  apply (valid_tokens_roundtrip
           [{| text := "article"; input := false |};
            {| text := "slug"; input := true |}]).
  - discriminate.
  - repeat constructor.
Defined.

(** X7. Rendering a token and converting the result gives the token back
    exactly when the token is flagged as input or its text does not start
    with a colon; every token that [toToken] returns is of that kind. *)
Theorem toToken_inverts_rendering :
  (forall tok : Token,
      toToken (tokensToString [tok]) = tok <->
      (input tok = true \/ Str.charAt 0 (text tok) <> ":"))
  /\ (forall item : string,
      input (toToken item) = true \/ Str.charAt 0 (text (toToken item)) <> ":").
Proof.
  assert (Hcons : forall c t, Str.charAt 0 (String c t) = String c "") by reflexivity.
  split.
  - intros [t [|]]; change (tokensToString [?x]) with (render x);
      unfold render; simpl.
    + change (":" +:+ t) with (String ":" t). rewrite TokenFacts.toToken_cons.
      simpl. tauto.
    + destruct t as [|c t]; [split; [right; discriminate | reflexivity]|].
      rewrite TokenFacts.toToken_cons, Hcons.
      destruct (Ascii.eqb_spec c ":") as [->|Hne]; split.
      * discriminate.
      * intros [H|H]; [discriminate | contradiction].
      * intros _. right. congruence.
      * reflexivity.
  - intros [|c t]; [right; discriminate|].
    rewrite TokenFacts.toToken_cons.
    destruct (Ascii.eqb_spec c ":") as [->|Hne]; simpl; [now left|].
    right. rewrite Hcons. congruence.
Qed.

(** ** Path hierarchy joining *)

Module HierarchyFacts.
Import StrFacts.

Lemma kept_nil (l : list string) :
  List.filter (fun fragment => negb (fragment =? "/")) l = [] <->
  Forall (fun fragment => fragment = "/") l.
Proof.
  induction l as [|x l IH]; simpl.
  - split; [constructor | reflexivity].
  - destruct (String.eqb_spec x "/") as [->|Hne]; simpl.
    + rewrite IH. split; [now constructor | now inversion 1].
    + split; [discriminate | inversion 1; contradiction].
Qed.

Lemma kept_not_root (l : list string) :
  Forall (fun fragment => fragment <> "/")
         (List.filter (fun fragment => negb (fragment =? "/")) l).
Proof.
  induction l as [|x l IH]; simpl; [constructor|].
  destruct (String.eqb_spec x "/"); simpl; [assumption | now constructor].
Qed.

(** Fragments other than the root never concatenate to the root. *)
Lemma concat_not_root (kept : list string) :
  Forall (fun fragment => fragment <> "/") kept ->
  fold_right String.append "" kept <> "/".
Proof.
  induction 1 as [|x l Hx _ IH]; simpl; [discriminate|].
  intros [[-> E]|(x' & -> & E)]%app_eq_cons; [contradiction|].
  symmetry in E. apply app_eq_nil in E as [-> _]. contradiction.
Qed.

Lemma concat_app (k1 k2 : list string) :
  fold_right String.append "" (k1 ++ k2)
  = fold_right String.append "" k1 +:+ fold_right String.append "" k2.
Proof.
  induction k1 as [|x k1 IH]; [reflexivity|].
  simpl. now rewrite IH, app_assoc.
Qed.

Lemma joinFragments_root_iff (l : list string) :
  Spec.joinFragments l = "/" <-> Forall (fun fragment => fragment = "/") l.
Proof.
  rewrite <- kept_nil. unfold Spec.joinFragments.
  pose proof (concat_not_root _ (kept_not_root l)) as Hnot.
  destruct (List.filter _ l) as [|x k]; [tauto|].
  split; [intros E; contradiction | discriminate].
Qed.

Lemma joinFragments_pair (x y : string) :
  Spec.joinFragments [x; y]
  = if x =? "/" then (if y =? "/" then "/" else y)
    else if y =? "/" then x else x +:+ y.
Proof.
  unfold Spec.joinFragments. simpl.
  destruct (x =? "/"), (y =? "/"); simpl; now rewrite ?app_nil_r.
Qed.

Lemma joinFragments_app (a b : list string) :
  Spec.joinFragments (a ++ b)
  = Spec.joinFragments [Spec.joinFragments a; Spec.joinFragments b].
Proof.
  rewrite joinFragments_pair.
  pose proof (joinFragments_root_iff a) as Ha.
  pose proof (joinFragments_root_iff b) as Hb.
  rewrite <- kept_nil in Ha, Hb.
  unfold Spec.joinFragments in *. rewrite List.filter_app.
  destruct (List.filter _ a) as [|xa ka] eqn:Ea;
    destruct (List.filter _ b) as [|xb kb] eqn:Eb.
  - reflexivity.
  - simpl app. change ("/" =? "/") with true. cbv iota.
    destruct (String.eqb_spec (fold_right String.append "" (xb :: kb)) "/") as [E|_];
      [|reflexivity].
    apply Hb in E. discriminate.
  - rewrite List.app_nil_r. change ("/" =? "/") with true.
    destruct (String.eqb_spec (fold_right String.append "" (xa :: ka)) "/") as [E|_];
      [|reflexivity].
    apply Ha in E. discriminate.
  - destruct (String.eqb_spec (fold_right String.append "" (xa :: ka)) "/") as [E|_];
      [apply Ha in E; discriminate|].
    destruct (String.eqb_spec (fold_right String.append "" (xb :: kb)) "/") as [E|_];
      [apply Hb in E; discriminate|].
    rewrite <- concat_app. reflexivity.
Qed.

End HierarchyFacts.

(** X8. [buildPath] returns the root ["/"] only when nothing remains: its
    result is ["/"] exactly when every fragment is ["/"] (the empty
    hierarchy included). *)
Theorem buildPath_root_iff (pathHierarchy : list string) :
  buildPath pathHierarchy = "/" <->
  Forall (fun fragment => fragment = "/") pathHierarchy.
Proof.
  rewrite BuildPathFacts.buildPath_refines.
  apply HierarchyFacts.joinFragments_root_iff.
Qed.

(** X9. Joining may be done level by level: the path of two hierarchies
    put end to end is the path of the two paths, and joining a path that
    is already joined changes nothing. *)
Theorem buildPath_nested (outer inner : list string) :
  buildPath (outer ++ inner) = buildPath [buildPath outer; buildPath inner]
  /\ buildPath [buildPath outer] = buildPath outer.
Proof.
  rewrite !BuildPathFacts.buildPath_refines. split.
  - apply HierarchyFacts.joinFragments_app.
  - rewrite <- (List.app_nil_r outer) at 2.
    rewrite HierarchyFacts.joinFragments_app, HierarchyFacts.joinFragments_pair.
    change (Spec.joinFragments []) with "/". change ("/" =? "/") with true.
    unfold Spec.joinFragments at 1. simpl.
    destruct (Spec.joinFragments outer =? "/") eqn:E; simpl.
    + now apply String.eqb_eq in E.
    + now rewrite StrFacts.app_nil_r.
Qed.

(** ** Registration *)

Module TableFacts.

(** A call that does not concern a name leaves its entry alone. *)
Lemma register_other (nameHierarchy pathHierarchy : list string)
    (rt : RouteTable) (other : string) :
  other <> Str.join "." nameHierarchy ->
  snd (register nameHierarchy pathHierarchy rt) !! other = rt !! other.
Proof.
  intros Hne. rewrite RegisterFacts.register_cases. cbv zeta.
  destruct (conflicts _ _); [reflexivity|].
  destruct (negb _); [reflexivity|]. simpl. now apply lookup_insert_ne.
Qed.

(** The outcome of a call depends on the table only through the entry for
    the computed name. *)
Lemma register_outcome_local (nameHierarchy pathHierarchy : list string)
    (rt rt' : RouteTable) :
  rt' !! Str.join "." nameHierarchy = rt !! Str.join "." nameHierarchy ->
  fst (register nameHierarchy pathHierarchy rt')
  = fst (register nameHierarchy pathHierarchy rt).
Proof.
  intros E. rewrite !RegisterFacts.register_cases. cbv zeta.
  unfold property. rewrite E.
  destruct (conflicts _ _); [reflexivity|].
  destruct (negb _); reflexivity.
Qed.

(** The table after a call, by the outcome of the call. *)
Lemma register_table (nameHierarchy pathHierarchy : list string) (rt : RouteTable) :
  snd (register nameHierarchy pathHierarchy rt)
  = match fst (register nameHierarchy pathHierarchy rt) with
    | Eff.Returned _ =>
        <[Str.join "." nameHierarchy :=
            {| pattern := buildPath pathHierarchy;
               tokens := map toToken (Str.split "/" (buildPath pathHierarchy)) |}]> rt
    | Eff.Threw _ => rt
    end.
Proof.
  rewrite RegisterFacts.register_cases. cbv zeta.
  destruct (conflicts _ _); [reflexivity|].
  destruct (negb _); reflexivity.
Qed.

(** Every entry of a built table holds a valid pattern and the tokens of
    that pattern. *)
Lemma built_entries (rt : RouteTable) :
  built rt ->
  forall routeName def,
    rt !! routeName = Some def ->
    isValidPathForNamedRoute (JSString (pattern def)) = true
    /\ tokens def = map toToken (Str.split "/" (pattern def)).
Proof.
  induction 1 as [|rt nh ph _ IH]; intros routeName def.
  - rewrite lookup_empty. discriminate.
  - rewrite register_table.
    destruct (fst (register nh ph rt)) eqn:Hout; [|apply IH].
    destruct (RegisterFacts.register_returned nh ph rt) as [_ Hvalid].
    { rewrite Hout. now destruct a. }
    destruct (decide (routeName = Str.join "." nh)) as [->|Hne].
    + rewrite lookup_insert_eq. intros [= <-]. simpl. auto.
    + rewrite lookup_insert_ne by congruence. apply IH.
Qed.

End TableFacts.

(** X10. [register] returns without throwing exactly when the computed
    pattern is a valid path, the table has no entry for the computed name
    with a different stored pattern and, if it has no entry for the name
    at all, the name is not one that the table inherits.  It throws the
    malformed-pattern error exactly under the same conditions on the
    table and the name when the pattern is not valid. *)
Theorem register_returns_iff
    (rt : RouteTable) (nameHierarchy pathHierarchy : list string) :
  (fst (register nameHierarchy pathHierarchy rt) = Eff.Returned tt <->
   (forall stored,
       rt !! Str.join "." nameHierarchy = Some stored ->
       pattern stored = buildPath pathHierarchy)
   /\ (rt !! Str.join "." nameHierarchy = None ->
       inherits (Str.join "." nameHierarchy) = false)
   /\ isValidPathForNamedRoute (JSString (buildPath pathHierarchy)) = true)
  /\ ((exists p, fst (register nameHierarchy pathHierarchy rt)
                 = Eff.Threw (MalformedPattern p)) <->
      (forall stored,
          rt !! Str.join "." nameHierarchy = Some stored ->
          pattern stored = buildPath pathHierarchy)
      /\ (rt !! Str.join "." nameHierarchy = None ->
          inherits (Str.join "." nameHierarchy) = false)
      /\ isValidPathForNamedRoute (JSString (buildPath pathHierarchy)) = false).
Proof.
  pose proof (RegisterFacts.no_conflict_spec rt (Str.join "." nameHierarchy)
                (buildPath pathHierarchy)) as Hnc.
  rewrite RegisterFacts.register_cases. cbv zeta.
  destruct (conflicts _ _); simpl.
  - assert (Hno : forall A : Prop,
               (forall stored,
                   rt !! Str.join "." nameHierarchy = Some stored ->
                   pattern stored = buildPath pathHierarchy)
               /\ (rt !! Str.join "." nameHierarchy = None ->
                   inherits (Str.join "." nameHierarchy) = false)
               /\ A -> False).
    { intros A (HA & HB & _). now pose proof (proj2 Hnc (conj HA HB)). }
    split; split; try discriminate.
    + intros H. now apply Hno in H.
    + intros [p [=]].
    + intros H. now apply Hno in H.
  - destruct (proj1 Hnc eq_refl) as [HA HB].
    destruct (isValidPathForNamedRoute _); simpl; split; split;
      try discriminate; auto; try (intros (_ & _ & [=])); try (intros [p [=]]).
    eauto.
Qed.

(** X11. The pattern stored under a name never changes and no entry is ever
    removed: whatever the call and its outcome, a name that had an entry
    still has one, with the same pattern. *)
Theorem register_keeps_patterns
    (rt : RouteTable) (nameHierarchy pathHierarchy : list string)
    (routeName : string) (def : RouteDefinition) :
  rt !! routeName = Some def ->
  exists def',
    snd (register nameHierarchy pathHierarchy rt) !! routeName = Some def'
    /\ pattern def' = pattern def.
Proof.
  intros Hdef.
  destruct (decide (routeName = Str.join "." nameHierarchy)) as [->|Hne].
  - rewrite TableFacts.register_table.
    destruct (fst (register nameHierarchy pathHierarchy rt)) eqn:Hout; [|eauto].
    destruct (RegisterFacts.register_returned nameHierarchy pathHierarchy rt)
      as [Hno _].
    { rewrite Hout. now destruct a. }
    rewrite lookup_insert_eq. eexists. split; [reflexivity|]. simpl.
    symmetry. now apply (proj1 (RegisterFacts.no_conflict_spec _ _ _) Hno).
  - rewrite TableFacts.register_other by assumption. eauto.
Qed.

Lemma register_keeps_patterns_witness :
  exists def',
    snd (register ["a"] ["/other"] (snd (register ["a"] ["/x"] ∅))) !! "a" = Some def'
    /\ pattern def' = "/x".
Proof.
  apply (register_keeps_patterns (snd (register ["a"] ["/x"] ∅)) ["a"] ["/other"] "a"
           {| pattern := "/x"; tokens := map toToken (Str.split "/" "/x") |}).
  reflexivity.
Defined.

(** X12. Calls for different names do not interfere: the outcome of a call
    is the same before and after a call for another name, and the two
    calls leave the same table in either order. *)
Theorem register_commutes
    (rt : RouteTable) (names1 paths1 names2 paths2 : list string) :
  Str.join "." names1 <> Str.join "." names2 ->
  fst (register names1 paths1 (snd (register names2 paths2 rt)))
  = fst (register names1 paths1 rt)
  /\ snd (register names1 paths1 (snd (register names2 paths2 rt)))
     = snd (register names2 paths2 (snd (register names1 paths1 rt))).
Proof.
  intros Hne.
  assert (H1 : fst (register names1 paths1 (snd (register names2 paths2 rt)))
               = fst (register names1 paths1 rt)).
  { apply TableFacts.register_outcome_local. now apply TableFacts.register_other. }
  assert (H2 : fst (register names2 paths2 (snd (register names1 paths1 rt)))
               = fst (register names2 paths2 rt)).
  { apply TableFacts.register_outcome_local. apply TableFacts.register_other.
    congruence. }
  split; [exact H1|].
  rewrite (TableFacts.register_table names1 paths1 (snd _)), H1.
  rewrite (TableFacts.register_table names2 paths2 (snd _)), H2.
  rewrite (TableFacts.register_table names1 paths1 rt).
  rewrite (TableFacts.register_table names2 paths2 rt).
  destruct (fst (register names1 paths1 rt)), (fst (register names2 paths2 rt));
    try reflexivity.
  now apply insert_insert_ne.
Qed.

Lemma register_commutes_witness :
  snd (register ["a"] ["/a"] (snd (register ["b"] ["/b"; "/:id"] ∅)))
  = snd (register ["b"] ["/b"; "/:id"] (snd (register ["a"] ["/a"] ∅))).
Proof.
  apply (register_commutes ∅ ["a"] ["/a"] ["b"] ["/b"; "/:id"]). discriminate.
Defined.

(** X13. In a table built from the empty table by calls of [register],
    every entry holds a valid pattern and the tokens of that pattern, and
    [tokensToString] of its tokens is its pattern. *)
Theorem built_table_entries
    (rt : RouteTable) (routeName : string) (def : RouteDefinition) :
  built rt ->
  rt !! routeName = Some def ->
  isValidPathForNamedRoute (JSString (pattern def)) = true
  /\ tokens def = map toToken (Str.split "/" (pattern def))
  /\ tokensToString (tokens def) = pattern def.
Proof.
  intros Hbuilt Hdef.
  destruct (TableFacts.built_entries rt Hbuilt routeName def Hdef) as [Hv Ht].
  repeat split; [assumption | assumption |].
  rewrite Ht. apply TokenFacts.roundtrip_any.
Qed.

Lemma built_table_entries_witness :
  isValidPathForNamedRoute (JSString "/article/:slug") = true
  /\ [rootToken; {| text := "article"; input := false |};
      {| text := "slug"; input := true |}]
     = map toToken (Str.split "/" "/article/:slug")
  /\ tokensToString
       [rootToken; {| text := "article"; input := false |};
        {| text := "slug"; input := true |}]
     = "/article/:slug".
Proof.
  apply (built_table_entries
           (snd (register ["article"; "show"] ["/article"; "/"; "/:slug"] ∅))
           "article.show"
           {| pattern := "/article/:slug";
              tokens := [rootToken; {| text := "article"; input := false |};
                         {| text := "slug"; input := true |}] |}).
  - apply built_register. apply built_empty.
  - reflexivity.
Defined.

(** X14. In a built table the tokens of every entry start with the token
    of the empty segment; the tokens after it carry valid names, except
    for the root route, which has one more token of the empty segment. *)
Theorem built_table_tokens
    (rt : RouteTable) (routeName : string) (def : RouteDefinition) :
  built rt ->
  rt !! routeName = Some def ->
  (pattern def = "/" /\ tokens def = [rootToken; rootToken])
  \/ (pattern def <> "/"
      /\ exists toks,
          tokens def = rootToken :: toks
          /\ toks <> []
          /\ Forall (fun tok => isValidName (JSString (text tok)) = true) toks).
Proof.
  intros Hbuilt Hdef.
  destruct (TableFacts.built_entries rt Hbuilt routeName def Hdef) as [Hv ->].
  now apply SegmentFacts.valid_path_tokens.
Qed.

Lemma built_table_tokens_witness :
  ("/" = "/" /\ [rootToken; rootToken] = [rootToken; rootToken])
  \/ ("/" <> "/"
      /\ exists toks,
          [rootToken; rootToken] = rootToken :: toks
          /\ toks <> []
          /\ Forall (fun tok => isValidName (JSString (text tok)) = true) toks).
Proof.
  apply (built_table_tokens (snd (register ["home"] ["/"; "/"] ∅)) "home"
           {| pattern := "/"; tokens := [rootToken; rootToken] |}).
  - apply built_register. apply built_empty.
  - reflexivity.
Defined.

(** The message of an error tells which error it is and carries the name
    or the pattern. *)
Module MessageFacts.

Lemma message_head (e : RegisterError) :
  String.get 0 (message e)
  = match e with
    | DuplicateRouteName _ => Some "T"%char
    | MalformedPattern _ => Some "G"%char
    end.
Proof. destruct e; reflexivity. Qed.

End MessageFacts.

(** X15. The two errors of [register] are plain errors told apart by their
    message only; the message determines the error: two errors with the
    same message are the same kind of error, about the same name or the
    same pattern. *)
Theorem message_determines_error (e1 e2 : RegisterError) :
  message e1 = message e2 -> e1 = e2.
Proof.
  intros E. pose proof (f_equal (String.get 0) E) as Hhead.
  rewrite !MessageFacts.message_head in Hhead.
  destruct e1 as [n1|p1], e2 as [n2|p2]; try discriminate; f_equal;
    unfold message in E; eapply String.app_inj; exact E.
Qed.

Lemma message_determines_error_witness :
  DuplicateRouteName (Str.join "." ["a"; "b"]) = DuplicateRouteName "a.b".
Proof.
  apply (message_determines_error
           (DuplicateRouteName (Str.join "." ["a"; "b"])) (DuplicateRouteName "a.b")).
  reflexivity.
Defined.

(** ** Terminal routes *)

(** X16. When the constants [PUSH] and [POP] differ, a pair of events that
    is terminal is not terminal in the reverse order, and no event is
    terminal with itself. *)
Theorem isTerminalRoute_one_way
    {Operation : Type} `{EqDecision Operation} (PUSH POP : Operation)
    (first second : Event (Operation := Operation)) :
  PUSH <> POP ->
  (isTerminalRoute PUSH POP (Some first) second = true ->
   isTerminalRoute PUSH POP (Some second) first = false)
  /\ isTerminalRoute PUSH POP (Some first) first = false.
Proof.
  intros Hne. unfold isTerminalRoute. split.
  - destruct (bool_decide_reflect (operation first = PUSH)) as [Hpush|];
      [|discriminate].
    destruct (bool_decide_reflect (operation second = POP)) as [Hpop|];
      [|discriminate].
    intros _.
    destruct (bool_decide_reflect (operation second = PUSH)) as [Hpush'|];
      [congruence | reflexivity].
  - destruct (bool_decide_reflect (operation first = PUSH)) as [Hpush|];
      [|reflexivity].
    destruct (bool_decide_reflect (operation first = POP)) as [Hpop|];
      [congruence | reflexivity].
Qed.

Lemma isTerminalRoute_one_way_witness :
  isTerminalRoute "push" "pop" (Some (mkEvent "pop" "x")) (mkEvent "push" "x") = false.
Proof.
  assert (Hne : "push" <> "pop") by discriminate.
  apply (proj1 (isTerminalRoute_one_way "push" "pop"
                  (mkEvent "push" "x") (mkEvent "pop" "x") Hne)).
  reflexivity.
Defined.

(** ** Deep flattening *)

Module FlatFacts.

Lemma leaves_of_flat (l : list JSValue) :
  Forall (fun item => isArray item = false) l -> flat_map Spec.leaves l = l.
Proof.
  induction 1 as [|item l Hitem _ IH]; [reflexivity|].
  simpl. rewrite IH. destruct item; try reflexivity. discriminate.
Qed.

Lemma flattenDeep_flat (l : list JSValue) :
  Forall (fun leaf => isArray leaf = false) (flattenDeep l).
Proof.
  rewrite FlattenFacts.flattenDeep_leaves.
  induction l as [|v l IH]; simpl; [constructor|].
  apply Forall_app. split; [apply FlattenFacts.leaves_flat | assumption].
Qed.

End FlatFacts.

(** X17. [flattenDeep] returns unchanged a sequence that holds no
    sequence, so flattening twice is flattening once. *)
Theorem flattenDeep_idempotent (nestedArrays : list JSValue) :
  (Forall (fun item => isArray item = false) nestedArrays ->
   flattenDeep nestedArrays = nestedArrays)
  /\ flattenDeep (flattenDeep nestedArrays) = flattenDeep nestedArrays.
Proof.
  split.
  - intros Hflat. rewrite FlattenFacts.flattenDeep_leaves.
    now apply FlatFacts.leaves_of_flat.
  - rewrite (FlattenFacts.flattenDeep_leaves (flattenDeep nestedArrays)).
    apply FlatFacts.leaves_of_flat, FlatFacts.flattenDeep_flat.
Qed.

Lemma flattenDeep_idempotent_witness :
  flattenDeep [JSNumber 1; JSString "a"; JSNull] = [JSNumber 1; JSString "a"; JSNull].
Proof.
  apply (proj1 (flattenDeep_idempotent [JSNumber 1; JSString "a"; JSNull])).
  repeat constructor.
Defined.

(** ** The shape of a valid path *)

Module ShapeFacts.
Import StrFacts NameFacts SegmentFacts.

(** The pieces of a string cut at a separator are the pieces before the
    cut and the pieces after it. *)
Lemma split_cut (sep : ascii) (a b : string) :
  Str.split sep (a +:+ String sep b) = Str.split sep a ++ Str.split sep b.
Proof.
  induction a as [|c a IH]; rewrite ?app_nil_l, ?app_cons; simpl.
  - now rewrite Ascii.eqb_refl.
  - rewrite IH. destruct (Ascii.eqb c sep); [reflexivity|].
    pose proof (split_not_nil sep a) as Hne.
    destruct (Str.split sep a); [contradiction | reflexivity].
Qed.

Lemma segment_not_empty (seg : string) : segment seg -> seg <> "".
Proof.
  intros (t & Ht & [-> | ->]); [now apply token_not_empty | discriminate].
Qed.

(** The pieces of a valid path: an empty piece, then pieces that are not
    empty, or one more empty piece for the root. *)
Lemma valid_pieces (p : string) :
  isValidPathForNamedRoute (JSString p) = true ->
  exists segs,
    Str.split "/" p = "" :: segs
    /\ (p = "/" /\ segs = [""] \/ p <> "/" /\ Forall (fun seg => seg <> "") segs).
Proof.
  intros [-> | Hp]%PathFacts.isValid_string; [exists [""]; auto|].
  assert (Hroot : p <> "/") by (intros ->; now apply PathFacts.root_not_matched).
  apply PathFacts.path_language, groups_segments in Hp as (segs & Hne & Hsegs & ->).
  exists segs. split.
  - apply (split_join "/" ("" :: segs)); [discriminate|].
    constructor; [reflexivity|]. eapply Forall_impl; [exact Hsegs|].
    intros seg. apply segment_no_slash.
  - right. split; [assumption|]. eapply Forall_impl; [exact Hsegs|].
    intros seg. apply segment_not_empty.
Qed.

Lemma valid_starts_with_slash (p : string) :
  isValidPathForNamedRoute (JSString p) = true -> exists rest, p = "/" +:+ rest.
Proof.
  intros [-> | Hp]%PathFacts.isValid_string; [now exists ""|].
  apply PathFacts.path_language, groups_segments in Hp as (segs & Hne & _ & ->).
  destruct segs as [|seg segs]; [contradiction|].
  now exists (Str.join "/" (seg :: segs)).
Qed.

(** An empty piece after the first piece makes a path invalid, unless the
    path is the root. *)
Lemma empty_piece_invalid (p : string) (before after : list string) :
  before <> [] ->
  Str.split "/" p = before ++ "" :: after ->
  p <> "/" ->
  isValidPathForNamedRoute (JSString p) = false.
Proof.
  intros Hne Hsplit Hroot.
  destruct (isValidPathForNamedRoute (JSString p)) eqn:Hvalid; [|reflexivity].
  apply valid_pieces in Hvalid as (segs & Hsegs & [[-> _] | [_ Hall]]);
    [contradiction|].
  rewrite Hsplit in Hsegs. destruct before as [|x before]; [contradiction|].
  injection Hsegs as _ <-.
  apply Forall_app in Hall as [_ Hall]. inversion Hall; contradiction.
Qed.

End ShapeFacts.

(** X18. Every valid path starts with a slash; no valid path holds two
    adjacent slashes, and none but the root ends with a slash. *)
Theorem valid_path_shape :
  (forall p : string,
      isValidPathForNamedRoute (JSString p) = true -> exists rest, p = "/" +:+ rest)
  /\ (forall a b : string,
      isValidPathForNamedRoute (JSString (a +:+ "//" +:+ b)) = false)
  /\ (forall a : string,
      a <> "" -> isValidPathForNamedRoute (JSString (a +:+ "/")) = false).
Proof.
  split; [exact ShapeFacts.valid_starts_with_slash|]. split.
  - intros a b.
    apply (ShapeFacts.empty_piece_invalid _ (Str.split "/" a) (Str.split "/" b)).
    + apply StrFacts.split_not_nil.
    + change (a +:+ "//" +:+ b) with (a +:+ String "/" ("" +:+ String "/" b)).
      now rewrite !ShapeFacts.split_cut.
    + intros [[-> [=]] | (a' & -> & E)]%StrFacts.app_eq_cons.
      symmetry in E. now apply StrFacts.app_eq_nil in E as [_ [=]].
  - intros a Ha.
    apply (ShapeFacts.empty_piece_invalid _ (Str.split "/" a) []).
    + apply StrFacts.split_not_nil.
    + apply ShapeFacts.split_cut.
    + intros [[-> _] | (a' & -> & E)]%StrFacts.app_eq_cons; [contradiction|].
      symmetry in E. now apply StrFacts.app_eq_nil in E as [_ [=]].
Qed.

Lemma valid_path_shape_witness :
  (exists rest, "/foo/:bar" = "/" +:+ rest)
  /\ isValidPathForNamedRoute (JSString ("/foo" +:+ "/")) = false.
Proof.
  split.
  - apply (proj1 valid_path_shape "/foo/:bar"). reflexivity.
  - apply (proj2 (proj2 valid_path_shape) "/foo"). discriminate.
Defined.

(** X19. A well-formed hierarchy registers under a fresh name: when every
    fragment is ["/"] or a valid path, the table has no entry for the name
    and the name is not one that the table inherits, [register] returns,
    and afterwards the name has the joined pattern. *)
Theorem register_well_formed
    (rt : RouteTable) (nameHierarchy pathHierarchy : list string) :
  Forall (fun fragment =>
            fragment = "/" \/ isValidPathForNamedRoute (JSString fragment) = true)
         pathHierarchy ->
  rt !! Str.join "." nameHierarchy = None ->
  inherits (Str.join "." nameHierarchy) = false ->
  fst (register nameHierarchy pathHierarchy rt) = Eff.Returned tt
  /\ pattern <$> (snd (register nameHierarchy pathHierarchy rt)
                  !! Str.join "." nameHierarchy)
     = Some (buildPath pathHierarchy).
Proof.
  intros Hwf Hfresh Hplain.
  assert (Hvalid : isValidPathForNamedRoute (JSString (buildPath pathHierarchy)) = true).
  { rewrite BuildPathFacts.buildPath_refines. unfold Spec.joinFragments.
    assert (Hkept : Forall (Regex.matches (Regex.Plus pathGroup))
              (List.filter (fun fragment => negb (fragment =? "/")) pathHierarchy)).
    { induction Hwf as [|f l Hf _ IH]; simpl; [constructor|].
      destruct (String.eqb_spec f "/") as [->|Hne]; simpl; [assumption|].
      constructor; [|assumption].
      destruct Hf as [->|Hf]; [contradiction|].
      apply PathFacts.isValid_string in Hf as [->|Hf]; [contradiction | assumption]. }
    destruct (List.filter _ pathHierarchy) as [|x l]; [reflexivity|].
    apply PathFacts.isValid_string. right.
    apply RegexFacts.plus_concat; [discriminate | exact Hkept]. }
  rewrite RegisterFacts.register_cases. cbv zeta.
  unfold property. rewrite Hfresh, Hplain, Hvalid. simpl. split; [reflexivity|].
  now rewrite lookup_insert_eq.
Qed.

Lemma register_well_formed_witness :
  fst (register ["article"; "show"] ["/article"; "/"; "/:slug"] ∅) = Eff.Returned tt.
Proof.
  apply (register_well_formed ∅ ["article"; "show"] ["/article"; "/"; "/:slug"]).
  - repeat constructor; (left; reflexivity) || (right; reflexivity).
  - reflexivity.
  - reflexivity.
Defined.

(** ** The duplicate check *)

(** X20. [register] throws the duplicate-name error exactly in two cases:
    the table has an entry for the computed name with a different stored
    pattern, or it has no entry for the name and the name is one that the
    table inherits, such as [constructor] or [toString]. *)
Theorem register_duplicate_exactly
    (rt : RouteTable) (nameHierarchy pathHierarchy : list string) :
  (exists n, fst (register nameHierarchy pathHierarchy rt)
             = Eff.Threw (DuplicateRouteName n))
  <-> (exists stored,
          rt !! Str.join "." nameHierarchy = Some stored
          /\ pattern stored <> buildPath pathHierarchy)
      \/ (rt !! Str.join "." nameHierarchy = None
          /\ inherits (Str.join "." nameHierarchy) = true).
Proof.
  rewrite <- RegisterFacts.conflicts_spec, RegisterFacts.register_cases.
  cbv zeta. destruct (conflicts _ _).
  - split; [reflexivity | eauto].
  - split; [|discriminate]. intros [n H]. revert H.
    destruct (negb _); discriminate.
Qed.

(** X21. Registering again a name that [register] has just written, with
    the same pattern, returns without throwing and leaves the table as the
    first registration made it. *)
Theorem register_again
    (rt : RouteTable) (nameHierarchy pathHierarchy : list string)
    (nameHierarchy' pathHierarchy' : list string) :
  fst (register nameHierarchy pathHierarchy rt) = Eff.Returned tt ->
  Str.join "." nameHierarchy' = Str.join "." nameHierarchy ->
  buildPath pathHierarchy' = buildPath pathHierarchy ->
  register nameHierarchy' pathHierarchy' (snd (register nameHierarchy pathHierarchy rt))
  = (Eff.Returned tt, snd (register nameHierarchy pathHierarchy rt)).
Proof.
  intros Hok Hname Hpat.
  destruct (RegisterFacts.register_returned _ _ _ Hok) as [_ Hv].
  rewrite (TableFacts.register_table nameHierarchy pathHierarchy rt), Hok.
  rewrite RegisterFacts.register_cases. cbv zeta. rewrite Hname, Hpat.
  unfold property. rewrite lookup_insert_eq. simpl conflicts.
  rewrite String.eqb_refl, Hv. simpl. now rewrite insert_insert_eq.
Qed.

Lemma register_again_witness :
  register ["a.b"] ["/a/b"] (snd (register ["a"; "b"] ["/a"; "/b"] ∅))
  = (Eff.Returned tt, snd (register ["a"; "b"] ["/a"; "/b"] ∅)).
Proof.
  apply (register_again ∅ ["a"; "b"] ["/a"; "/b"] ["a.b"] ["/a/b"]); reflexivity.
Defined.
